(** * baton: metadata queries and updates against an iRODS catalog

    A shallow embedding of [src/baton.c]: the query descriptor builder
    ([make_query_input], [add_query_conds], the [prepare_*] functions), the
    chunked query executor ([do_query]), the result serializer
    ([make_json_objects]), the path projector ([data_object_path_to_json])
    and the metadata mutation mapper ([map_mod_args], [modify_metadata]).

    Conventions of the embedding.
    - A C [int] is a [Z]; the counters of this file ([len], [chunk_num], loop
      indices) stay far below [INT_MAX], so no wrap-around arises.
    - A [char *] that may be [NULL] is an [option string]; text is a [string].
    - A heap array is a [list] of its allocated length, read with [!!] and
      written with [<[i:=x]>]; an access outside it, or through [NULL], is C
      undefined behaviour and yields [Undefined].
    - A failed [assert] ends the program: [Aborted].
    - Allocation ([calloc], the jansson constructors) is taken to succeed;
      jansson refuses a text that is not valid UTF-8, which is modelled.
    - [logmsg] is modelled for the [ERROR] level only, as a list of entries;
      [DEBUG] tracing is left out. *)

From stdpp Require Import base list strings.
From Stdlib Require Import ZArith Ascii String Lia.

Local Open Scope string_scope.
Local Open Scope list_scope.
Local Open Scope Z_scope.

(** ** Outcomes of a C call *)

Inductive outcome (A : Type) : Type :=
  | Ret (a : A)
  | Undefined
  | OutOfFuel
  | Aborted.
Arguments Ret {A} a.
Arguments Undefined {A}.
Arguments OutOfFuel {A}.
Arguments Aborted {A}.

Definition bind {A B : Type} (m : outcome A) (k : A -> outcome B) : outcome B :=
  match m with
  | Ret a => k a
  | Undefined => Undefined
  | OutOfFuel => OutOfFuel
  | Aborted => Aborted
  end.

(** [assert(p)] on a pointer. *)
Definition assert {A : Type} (p : option A) : outcome A :=
  match p with
  | Some a => Ret a
  | None => Aborted
  end.

Notation "x <- m ;; k" := (bind m (fun x => k))
  (at level 20, m at level 99, k at level 200, right associativity).
Notation "' p <- m ;; k" := (bind m (fun p => k))
  (at level 20, p pattern, m at level 99, k at level 200, right associativity).

(** [a[i]] and [a[i] = x] on an array of [length a] cells. *)
Definition array_get {A : Type} (a : list A) (i : Z) : outcome A :=
  if decide (0 <= i)
  then match a !! Z.to_nat i with Some x => Ret x | None => Undefined end
  else Undefined.

Definition array_set {A : Type} (a : list A) (i : Z) (x : A) : outcome (list A) :=
  if decide (0 <= i < Z.of_nat (List.length a))
  then Ret (<[Z.to_nat i := x]> a)
  else Undefined.

(** [calloc(n, sizeof x)]: [n] zeroed cells. *)
Definition calloc {A : Type} (n : Z) (zero : A) : list A := replicate (Z.to_nat n) zero.

(** [for (int i = lo; i < hi; i++) body], threading the state [s]. *)
Fixpoint for_loop {T : Type} (n : nat) (i : Z) (body : Z -> T -> outcome T) (s : T)
  : outcome T :=
  match n with
  | O => Ret s
  | S n' => s' <- body i s ;; for_loop n' (i + 1) body s'
  end.

Definition for_range {T : Type} (lo hi : Z) (body : Z -> T -> outcome T) (s : T)
  : outcome T :=
  for_loop (Z.to_nat (hi - lo)) lo body s.

(** Reading the text behind a [char *]: undefined on [NULL]. *)
Definition deref (s : option string) : outcome string :=
  match s with
  | Some t => Ret t
  | None => Undefined
  end.

Definition strlen (s : string) : Z := Z.of_nat (String.length s).

(** The C string that starts at the head of a buffer: the bytes before the
    first NUL. Running off the buffer without meeting one is undefined. *)
Fixpoint read_cstr (buf : list ascii) : outcome string :=
  match buf with
  | [] => Undefined
  | c :: rest =>
      if Ascii.eqb c Ascii.zero then Ret EmptyString
      else s <- read_cstr rest ;; Ret (String c s)
  end.

Definition cstr_at (buf : list ascii) (off : Z) : outcome string :=
  if decide (0 <= off) then read_cstr (drop (Z.to_nat off) buf) else Undefined.

(** [snprintf(buf, size, ...)] of an already formatted text: at most
    [size - 1] characters are stored. *)
Definition snprintf (size : Z) (formatted : string) : string :=
  String.substring 0 (Z.to_nat (size - 1)) formatted.

(** ** jansson values *)

Module Jansson.

#[local] Unset Elimination Schemes.
Inductive json_t : Type :=
  | json_string_of (s : string)
  | json_array_of (items : list json_t)
  | json_object_of (members : list (string * json_t)).
#[local] Set Elimination Schemes.

(** *** UTF-8 (utf.c)

    [utf8_check_first] is jansson's; [utf8_check_string] takes the bytes
    one by one, keeping for a sequence that has begun its size, the number
    of bytes still to come and the value read so far, and applies the tests
    of [utf8_check_full] (continuation bytes, range, surrogates, overlong
    forms) as the bytes arrive. A sequence cut short by the end of the text
    is refused. *)

Definition byte_of (c : ascii) : Z := Z.of_N (N_of_ascii c).

Definition utf8_check_first (u : Z) : Z :=
  if u <? 0x80 then 1
  else if u <=? 0xBF then 0
  else if (u =? 0xC0) || (u =? 0xC1) then 0
  else if u <=? 0xDF then 2
  else if u <=? 0xEF then 3
  else if u <=? 0xF4 then 4
  else 0.

Definition utf8_first_value (size u : Z) : Z :=
  if size =? 2 then Z.land u 0x1F
  else if size =? 3 then Z.land u 0xF
  else Z.land u 0x7.

Definition utf8_value_ok (size value : Z) : bool :=
  if 0x10FFFF <? value then false
  else if (0xD800 <=? value) && (value <=? 0xDFFF) then false
  else if ((size =? 2) && (value <? 0x80))
          || ((size =? 3) && (value <? 0x800))
          || ((size =? 4) && (value <? 0x10000)) then false
  else true.

Fixpoint utf8_check_bytes (pending : option (Z * nat * Z)) (s : list ascii) : bool :=
  match s with
  | [] => match pending with None => true | Some _ => false end
  | c :: rest =>
      let u := byte_of c in
      match pending with
      | None =>
          let count := utf8_check_first u in
          if count =? 0 then false
          else if count =? 1 then utf8_check_bytes None rest
          else utf8_check_bytes
                 (Some (count, Z.to_nat (count - 1), utf8_first_value count u)) rest
      | Some (size, more, value) =>
          if (u <? 0x80) || (0xBF <? u) then false
          else
            let value := Z.shiftl value 6 + Z.land u 0x3F in
            match more with
            | O => false
            | S O => if utf8_value_ok size value then utf8_check_bytes None rest else false
            | S more => utf8_check_bytes (Some (size, more, value)) rest
            end
      end
  end.

Definition utf8_check_string (s : string) : bool :=
  utf8_check_bytes None (list_ascii_of_string s).

(** *** Values (value.c) *)

(** [json_string]: [NULL] for a text that is not valid UTF-8. *)
Definition json_string (value : string) : option json_t :=
  if utf8_check_string value then Some (json_string_of value) else None.

Definition json_array : json_t := json_array_of [].
Definition json_object : json_t := json_object_of [].

Definition json_array_size (j : json_t) : Z :=
  match j with
  | json_array_of items => Z.of_nat (List.length items)
  | _ => 0
  end.

(** [json_object_set_new]: the value of an existing key is replaced in
    place, a new key is added after the others. *)
Fixpoint set_member (members : list (string * json_t)) (key : string) (v : json_t)
  : list (string * json_t) :=
  match members with
  | [] => [(key, v)]
  | (k, w) :: rest =>
      if String.eqb k key then (k, v) :: rest else (k, w) :: set_member rest key v
  end.

(** A key that is not valid UTF-8 is refused: [-1], and no change. *)
Definition json_object_set_new (obj : json_t) (key : string) (v : json_t) : Z * json_t :=
  if utf8_check_string key then
    match obj with
    | json_object_of members => (0, json_object_of (set_member members key v))
    | _ => (-1, obj)
    end
  else (-1, obj).

(** [json_pack] with a format ["{s:s, ...}"]: an object of texts under the
    keys given, or [NULL] when a key or a text is not valid UTF-8. *)
Definition json_pack (fields : list (string * string)) : option json_t :=
  if forallb (fun field => utf8_check_string field.1 && utf8_check_string field.2) fields
  then Some (json_object_of
               (foldl (fun members field =>
                         set_member members field.1 (json_string_of field.2))
                  [] fields))
  else None.

Definition json_array_append_new (array v : json_t) : Z * json_t :=
  match array with
  | json_array_of items => (0, json_array_of (items ++ [v]))
  | _ => (-1, array)
  end.

(** [json_array_extend(array, other)]: [-1], and no change, unless both
    are arrays; a [NULL] is not an array. *)
Definition json_array_extend (array : json_t) (other : option json_t) : Z * json_t :=
  match array, other with
  | json_array_of items, Some (json_array_of more) => (0, json_array_of (items ++ more))
  | _, _ => (-1, array)
  end.

Definition keys (j : json_t) : list string :=
  match j with
  | json_object_of members => members.*1
  | _ => []
  end.

Definition items (j : json_t) : list json_t :=
  match j with
  | json_array_of l => l
  | _ => []
  end.

End Jansson.
Import Jansson.

(** ** [dirname] and [basename] (libgen.h, as the GNU C library has them)

    Both follow the steps of the POSIX description, read from the end of
    the path; the path is held reversed. Where everything in front of the
    last component is a run of separators, POSIX leaves a run of exactly
    two to the implementation: the GNU C library keeps it (["//"]) and
    reduces every other run to ["/"]. *)

Module Libgen.

Definition sep : ascii := "/"%char.
Definition is_sep (c : ascii) : bool := Ascii.eqb c sep.

Fixpoint skip_while (f : ascii -> bool) (l : list ascii) : list ascii :=
  match l with
  | [] => []
  | c :: rest => if f c then skip_while f rest else l
  end.

Fixpoint span_while (f : ascii -> bool) (l : list ascii) : list ascii :=
  match l with
  | [] => []
  | c :: rest => if f c then c :: span_while f rest else []
  end.

Definition chars (p : string) : list ascii := list_ascii_of_string p.
Definition text (l : list ascii) : string := string_of_list_ascii l.

Definition not_sep (c : ascii) : bool := negb (is_sep c).

(** [basename]: an empty path gives ["."]; a path of separators only
    gives ["/"]; otherwise the trailing separators go, and what follows
    the last separator left is the result. *)
Definition basename_chars (path : list ascii) : list ascii :=
  match path with
  | [] => ["."%char]
  | _ =>
      match skip_while is_sep (rev path) with
      | [] => [sep]
      | trimmed => rev (span_while not_sep trimmed)
      end
  end.

(** What [dirname] makes of a run of separators at the start of the
    path. *)
Definition leading_seps (run : list ascii) : list ascii :=
  match run with
  | [_; _] => [sep; sep]
  | _ => [sep]
  end.

(** [dirname]: an empty path gives ["."]; a path of separators only is a
    run at the start; otherwise the trailing separators go, then the last
    component (a path without separator gives ["."]), then the separators
    before it (nothing left: a run at the start). *)
Definition dirname_chars (path : list ascii) : list ascii :=
  match path with
  | [] => ["."%char]
  | _ =>
      match skip_while is_sep (rev path) with
      | [] => leading_seps path
      | trimmed =>
          match skip_while not_sep trimmed with
          | [] => ["."%char]
          | parent =>
              match skip_while is_sep parent with
              | [] => leading_seps parent
              | dir => rev dir
              end
          end
      end
  end.

Definition basename (path : string) : string := text (basename_chars (chars path)).
Definition dirname (path : string) : string := text (dirname_chars (chars path)).

(** Path normalisation: whether the path is absolute, and its components
    other than ["."] (runs of separators count once, a trailing separator
    is dropped). *)
Definition emit (cur : list ascii) : list (list ascii) :=
  match cur with [] => [] | _ => [cur] end.

Fixpoint components_from (cur : list ascii) (p : list ascii) : list (list ascii) :=
  match p with
  | [] => emit cur
  | c :: rest =>
      if is_sep c then emit cur ++ components_from [] rest
      else components_from (cur ++ [c]) rest
  end.

Definition components (p : list ascii) : list (list ascii) := components_from [] p.

Definition is_dot (comp : list ascii) : bool :=
  match comp with
  | [c] => Ascii.eqb c "."%char
  | _ => false
  end.

Definition is_absolute (p : list ascii) : bool :=
  match p with
  | c :: _ => is_sep c
  | [] => false
  end.

Definition normalize (p : string) : bool * list (list ascii) :=
  (is_absolute (chars p), filter (fun comp => is_dot comp = false) (components (chars p))).

End Libgen.
Import Libgen.

(** ** iRODS client library: constants, structures, calls *)

(** rodsErrorTable.h and rodsGenQuery.h *)
Definition CAT_NO_ROWS_FOUND : Z := -808000.
Definition COL_DATA_NAME : Z := 403.
Definition COL_COLL_NAME : Z := 501.
Definition COL_META_DATA_ATTR_NAME : Z := 600.
Definition COL_META_DATA_ATTR_VALUE : Z := 601.
Definition COL_META_DATA_ATTR_UNITS : Z := 602.
Definition COL_META_COLL_ATTR_NAME : Z := 610.
Definition COL_META_COLL_ATTR_VALUE : Z := 611.
Definition COL_META_COLL_ATTR_UNITS : Z := 612.

Inductive objType_t : Type :=
  | UNKNOWN_OBJ_T | DATA_OBJ_T | COLL_OBJ_T | UNKNOWN_FILE_T | LOCAL_FILE_T
  | LOCAL_DIR_T | NO_INPUT_T.

Inductive objStat_t : Type := UNKNOWN_ST | NOT_EXIST_ST | EXIST_ST.

Record rodsPath_t : Type := {
  objType : objType_t;
  objState : objStat_t;
  inPath : string;
  outPath : string;
}.

(** [inxIvalPair_t] and [inxValPair_t]: [len] used cells of two parallel
    heap arrays. *)
Record inxIvalPair_t : Type := {
  iv_len : Z;
  iv_inx : list Z;
  iv_value : list Z;
}.

Record inxValPair_t : Type := {
  vp_len : Z;
  vp_inx : list Z;
  vp_value : list (option string);
}.

Record genQueryInp_t : Type := {
  maxRows : Z;
  continueInx : Z;
  condInput_len : Z;
  selectInp : inxIvalPair_t;
  sqlCondInp : inxValPair_t;
}.

(** One column of a page: [rowCnt] runs of [len] bytes each, every run
    holding a NUL-terminated text. *)
Record sqlResult_t : Type := {
  attriInx : Z;
  sr_len : Z;
  sr_value : list ascii;
}.

Record genQueryOut_t : Type := {
  rowCnt : Z;
  attriCnt : Z;
  out_continueInx : Z;
  sqlResult : list sqlResult_t;
}.

Record modAVUMetadataInp_t : Type := {
  arg0 : option string; arg1 : option string; arg2 : option string;
  arg3 : option string; arg4 : option string; arg5 : option string;
  arg6 : option string; arg7 : option string; arg8 : option string;
  arg9 : option string;
}.

(** The remote calls, over the state of a connection. [rcGenQuery] answers
    with a status and with what it stored through [&query_output]. *)
Class IrodsClient (rcComm_t : Type) : Type := {
  rcGenQuery : rcComm_t -> genQueryInp_t -> Z * option genQueryOut_t * rcComm_t;
  rcModAVUMetadata : rcComm_t -> modAVUMetadataInp_t -> Z * rcComm_t;
  rError : rcComm_t -> option (list string);
  rodsErrorName : Z -> string * string;
}.

(** ** baton.h *)

Inductive metadata_op : Type := META_ADD | META_REM.

Inductive log_level : Type := FATAL | ERROR | WARN | NOTICE | INFO | DEBUG.

Record mod_metadata_in : Type := {
  op : metadata_op;
  type_arg : option string;
  rods_path : rodsPath_t;
  attr_name : option string;
  attr_value : option string;
  attr_units : option string;
}.

Record query_cond : Type := {
  column : Z;
  operator : option string;
  value : option string;
}.

(** The constants that baton.h defines. *)
Class BatonHeader : Type := {
  MAX_NUM_CONDITIONALS : Z;
  META_ADD_NAME : string;
  META_REM_NAME : string;
}.

(** ** baton.c *)

(** *** Logging *)

Inductive log_arg : Type := arg_int (n : Z) | arg_str (s : string).

Record log_entry : Type := {
  level : log_level;
  format : string;
  args : list log_arg;
}.

Definition logmsg (lvl : log_level) (fmt : string) (a : list log_arg) : list log_entry :=
  [ {| level := lvl; format := fmt; args := a |} ].

Definition log_rods_errstack (lvl : log_level) (error : list string) : list log_entry :=
  imap (fun i msg => {| level := lvl; format := "Level %d: %s";
                        args := [arg_int (Z.of_nat i); arg_str msg] |}) error.

(** *** Query descriptors *)

Section Descriptor.
Context {header : BatonHeader}.

Definition make_query_input (max_rows num_columns : Z) (columns : list Z)
  : outcome genQueryInp_t :=
  cols_to_select <-
    for_range 0 num_columns
      (fun i cols => c <- array_get columns i ;; array_set cols i c)
      (calloc num_columns 0) ;;
  special_select_ops <- array_set (calloc num_columns 0) 0 0 ;;
  let query_cond_indices := calloc MAX_NUM_CONDITIONALS 0 in
  let query_cond_values := calloc MAX_NUM_CONDITIONALS (@None string) in
  Ret {| maxRows := max_rows;
         continueInx := 0;
         condInput_len := 0;
         selectInp := {| iv_len := num_columns;
                         iv_inx := cols_to_select;
                         iv_value := special_select_ops |};
         sqlCondInp := {| vp_len := 0;
                          vp_inx := query_cond_indices;
                          vp_value := query_cond_values |} |}.

End Descriptor.

Definition set_sqlCondInp (query_input : genQueryInp_t) (c : inxValPair_t) : genQueryInp_t :=
  {| maxRows := maxRows query_input;
     continueInx := continueInx query_input;
     condInput_len := condInput_len query_input;
     selectInp := selectInp query_input;
     sqlCondInp := c |}.

Definition set_continueInx (query_input : genQueryInp_t) (token : Z) : genQueryInp_t :=
  {| maxRows := maxRows query_input;
     continueInx := token;
     condInput_len := condInput_len query_input;
     selectInp := selectInp query_input;
     sqlCondInp := sqlCondInp query_input |}.

(** The text that the format ["%s '%s'"] produces. *)
Definition format_cond (op name : string) : string :=
  op +:+ " '" +:+ name +:+ "'".

Definition add_query_cond (c : query_cond) (query_input : genQueryInp_t)
  : outcome genQueryInp_t :=
  op <- deref (operator c) ;;
  name <- deref (value c) ;;
  let expr_size := strlen name + strlen op + 3 + 1 in
  let expr := snprintf expr_size (format_cond op name) in
  let current_index := vp_len (sqlCondInp query_input) in
  inx' <- array_set (vp_inx (sqlCondInp query_input)) current_index (column c) ;;
  value' <- array_set (vp_value (sqlCondInp query_input)) current_index (Some expr) ;;
  Ret (set_sqlCondInp query_input
         {| vp_len := current_index + 1; vp_inx := inx'; vp_value := value' |}).

Definition add_query_conds (query_input : genQueryInp_t) (num_conds : Z)
    (conds : list query_cond) : outcome genQueryInp_t :=
  for_range 0 num_conds
    (fun i query_input => c <- array_get conds i ;; add_query_cond c query_input)
    query_input.

(** The function has no [return]; its effect is the update of the
    descriptor, which is what the model returns. *)
Definition prepare_obj_list (query_input : genQueryInp_t) (rods_path : rodsPath_t)
    (attr_name : option string) : outcome genQueryInp_t :=
  let path := outPath rods_path in
  let coll_name := dirname path in
  let data_name := basename path in
  let cn := {| column := COL_COLL_NAME; operator := Some "="; value := Some coll_name |} in
  let dn := {| column := COL_DATA_NAME; operator := Some "="; value := Some data_name |} in
  let an := {| column := COL_META_DATA_ATTR_NAME; operator := Some "="; value := attr_name |} in
  let num_conds := 2 in
  match attr_name with
  | Some _ => add_query_conds query_input (num_conds + 1) [cn; dn; an]
  | None => add_query_conds query_input num_conds [cn; dn]
  end.

Definition prepare_col_list (query_input : genQueryInp_t) (rods_path : rodsPath_t)
    (attr_name : option string) : outcome genQueryInp_t :=
  let path := outPath rods_path in
  let cn := {| column := COL_COLL_NAME; operator := Some "="; value := Some path |} in
  let an := {| column := COL_META_COLL_ATTR_NAME; operator := Some "="; value := attr_name |} in
  let num_conds := 1 in
  match attr_name with
  | Some _ => add_query_conds query_input (num_conds + 1) [cn; an]
  | None => add_query_conds query_input num_conds [cn]
  end.

Definition prepare_obj_search (query_input : genQueryInp_t)
    (attr_name attr_value : option string) : outcome genQueryInp_t :=
  let an := {| column := COL_META_DATA_ATTR_NAME; operator := Some "="; value := attr_name |} in
  let av := {| column := COL_META_DATA_ATTR_VALUE; operator := Some "="; value := attr_value |} in
  let num_conds := 2 in
  add_query_conds query_input num_conds [an; av].

Definition prepare_col_search (query_input : genQueryInp_t)
    (attr_name attr_value : option string) : outcome genQueryInp_t :=
  let an := {| column := COL_META_COLL_ATTR_NAME; operator := Some "="; value := attr_name |} in
  let av := {| column := COL_META_COLL_ATTR_VALUE; operator := Some "="; value := attr_value |} in
  let num_conds := 2 in
  add_query_conds query_input num_conds [an; av].

(** *** Result pages *)

(** The text of row [row] in column [i]: it starts [row * len] bytes into
    the column's run of values. *)
Definition page_cell (query_output : genQueryOut_t) (row i : Z) : outcome string :=
  col <- array_get (sqlResult query_output) i ;;
  cstr_at (sr_value col) (row * sr_len col).

(** The loop over the rows is left through [goto error] when an append
    fails: the state [None] stands for having left it, and the function
    then returns [NULL]. In a pass of the inner loop the column and the
    label are fetched (the label is an argument of the tracing call), then
    the text of the cell is read and made a JSON string, which is
    asserted. *)
Definition make_json_objects (query_output : genQueryOut_t) (labels : list string)
  : outcome (option json_t) :=
  for_range 0 (rowCnt query_output)
    (fun row array =>
       match array with
       | None => Ret None
       | Some array =>
           jrow <-
             for_range 0 (attriCnt query_output)
               (fun i jrow =>
                  col <- array_get (sqlResult query_output) i ;;
                  label <- array_get labels i ;;
                  result <- cstr_at (sr_value col) (row * sr_len col) ;;
                  jvalue <- assert (json_string result) ;;
                  Ret (snd (json_object_set_new jrow label jvalue)))
               json_object ;;
           let '(status, array') := json_array_append_new array jrow in
           if negb (status =? 0) then Ret None else Ret (Some array')
       end)
    (Some json_array).

(** *** Chunked execution *)

Section Executor.
Context {rcComm_t : Type} {client : IrodsClient rcComm_t}.

(** What a call leaves behind: its value, the connection, the [ERROR]
    messages it logged. *)
Definition answer (A : Type) : Type := A * rcComm_t * list log_entry.

Definition log_conn_errstack (conn : rcComm_t) : list log_entry :=
  match rError conn with
  | Some error => log_rods_errstack ERROR error
  | None => []
  end.

(** The [error:] exit of [do_query]. *)
Definition do_query_error (conn : rcComm_t) (chunk_num status : Z)
  : answer (option json_t) :=
  let '(err_name, err_subname) := rodsErrorName status in
  (None, conn,
   logmsg ERROR "Failed get query result: in chunk %d error %d %s %s"
     [arg_int chunk_num; arg_int status; arg_str err_name; arg_str err_subname]
   ++ log_conn_errstack conn).

(** The [while] loop of [do_query]; each test of its condition takes one
    unit of fuel. *)
Fixpoint do_query_loop (fuel : nat) (conn : rcComm_t) (query_input : genQueryInp_t)
    (query_output : option genQueryOut_t) (labels : list string)
    (chunk_num : Z) (results : json_t) : outcome (answer (option json_t)) :=
  match fuel with
  | O => OutOfFuel
  | S fuel' =>
      again <-
        (if chunk_num =? 0 then Ret true
         else match query_output with
              | Some out => Ret (0 <? out_continueInx out)
              | None => Undefined
              end) ;;
      if again : bool then
        let '(status, query_output, conn) := rcGenQuery conn query_input in
        if status =? CAT_NO_ROWS_FOUND then
          do_query_loop fuel' conn query_input query_output labels chunk_num results
        else if negb (status =? 0) then
          Ret (do_query_error conn chunk_num status)
        else
          match query_output with
          | None => Undefined
          | Some out =>
              let query_input := set_continueInx query_input (out_continueInx out) in
              chunk <- make_json_objects out labels ;;
              match chunk with
              | None => Ret (do_query_error conn chunk_num status)
              | Some _ =>
                  let chunk_num := chunk_num + 1 in
                  let '(status, results) := json_array_extend results chunk in
                  if negb (status =? 0) then
                    Ret (do_query_error conn chunk_num status)
                  else
                    do_query_loop fuel' conn query_input query_output labels
                      chunk_num results
              end
          end
      else Ret (Some results, conn, [])
  end.

Definition do_query (fuel : nat) (conn : rcComm_t) (query_input : genQueryInp_t)
    (query_output : option genQueryOut_t) (labels : list string)
  : outcome (answer (option json_t)) :=
  let chunk_num := 0 in
  let results := json_array in
  do_query_loop fuel conn query_input query_output labels chunk_num results.

End Executor.

(** *** Searching by attribute and value *)

Section Search.
Context {header : BatonHeader} {rcComm_t : Type} {client : IrodsClient rcComm_t}.

(** [query_output] is an uninitialised pointer in the callers of
    [do_query]: [None]. A [NULL] from [do_query] makes [json_array_extend]
    fail, which is not looked at. *)
Definition search_metadata (fuel : nat) (conn : rcComm_t)
    (attr_name attr_value : option string) : outcome (answer (option json_t)) :=
  let num_columns := 1 in
  let max_rows := 10 in
  let labels := ["collection"; "data_object"] in
  let columns := [COL_COLL_NAME; COL_DATA_NAME] in
  let results := json_array in
  let query_output := @None genQueryOut_t in
  query_input <- make_query_input max_rows num_columns columns ;;
  query_input <- prepare_col_search query_input attr_name attr_value ;;
  '(collections, conn, log1) <- do_query fuel conn query_input query_output labels ;;
  let results := snd (json_array_extend results collections) in
  query_input <- make_query_input max_rows (num_columns + 1) columns ;;
  query_input <- prepare_obj_search query_input attr_name attr_value ;;
  '(data_objects, conn, log2) <- do_query fuel conn query_input query_output labels ;;
  let results := snd (json_array_extend results data_objects) in
  Ret (Some results, conn, log1 ++ log2).

End Search.

(** *** Paths as JSON *)

Definition data_object_path_to_json (path : string) : option json_t :=
  let coll_name := dirname path in
  let data_name := basename path in
  json_pack [("collection", coll_name); ("data_object", data_name)].

Definition collection_path_to_json (path : string) : option json_t :=
  json_pack [("collection", path)].

(** *** Listing the metadata of a path, describing a path *)

Section Listing.
Context {header : BatonHeader} {rcComm_t : Type} {client : IrodsClient rcComm_t}.

(** The two [goto error] exits come before any query is sent. *)
Definition list_metadata (fuel : nat) (conn : rcComm_t) (path : rodsPath_t)
    (name : option string) : outcome (answer (option json_t)) :=
  let labels := ["attribute"; "value"; "units"] in
  let num_columns := 3 in
  let max_rows := 10 in
  let query_output := @None genQueryOut_t in
  match objState path with
  | NOT_EXIST_ST =>
      Ret (None, conn,
           logmsg ERROR "Path '%s' does not exist (or lacks access permission)"
             [arg_str (outPath path)])
  | _ =>
      match objType path with
      | DATA_OBJ_T =>
          let columns := [COL_META_DATA_ATTR_NAME; COL_META_DATA_ATTR_VALUE;
                          COL_META_DATA_ATTR_UNITS] in
          query_input <- make_query_input max_rows num_columns columns ;;
          query_input <- prepare_obj_list query_input path name ;;
          do_query fuel conn query_input query_output labels
      | COLL_OBJ_T =>
          let columns := [COL_META_COLL_ATTR_NAME; COL_META_COLL_ATTR_VALUE;
                          COL_META_COLL_ATTR_UNITS] in
          query_input <- make_query_input max_rows num_columns columns ;;
          query_input <- prepare_col_list query_input path name ;;
          do_query fuel conn query_input query_output labels
      | _ =>
          Ret (None, conn,
               logmsg ERROR
                 "Failed to list metadata on '%s' as it is neither data object nor collection"
                 [arg_str (outPath path)])
      end
  end.

(** The message of the [error:] exit of [rods_path_to_json]. *)
Definition conversion_failed (path : rodsPath_t) : list log_entry :=
  logmsg ERROR "Failed to covert '%s' to JSON" [arg_str (outPath path)].

Definition rods_path_to_json (fuel : nat) (conn : rcComm_t) (path : rodsPath_t)
  : outcome (answer (option json_t)) :=
  let attach (result : option json_t) : outcome (answer (option json_t)) :=
    match result with
    | None => Ret (None, conn, conversion_failed path)
    | Some result =>
        '(avus, conn, log) <- list_metadata fuel conn path None ;;
        match avus with
        | None => Ret (None, conn, log ++ conversion_failed path)
        | Some avus =>
            let '(status, result) := json_object_set_new result "avus" avus in
            if negb (status =? 0) then Ret (None, conn, log ++ conversion_failed path)
            else Ret (Some result, conn, log)
        end
    end
  in
  match objType path with
  | DATA_OBJ_T => attach (data_object_path_to_json (outPath path))
  | COLL_OBJ_T => attach (collection_path_to_json (outPath path))
  | _ =>
      Ret (None, conn,
           logmsg ERROR
             "Failed to list metadata on '%s' as it is neither data object nor collection"
             [arg_str (outPath path)]
           ++ conversion_failed path)
  end.

End Listing.

(** *** Metadata updates *)

Section Mutation.
Context {header : BatonHeader}.

(** The [default:] case, which gives [NULL], is out of reach of the two
    values of the enumeration. *)
Definition metadata_op_name (o : metadata_op) : option string :=
  match o with
  | META_ADD => Some META_ADD_NAME
  | META_REM => Some META_REM_NAME
  end.

Definition map_mod_args (i : mod_metadata_in) : modAVUMetadataInp_t :=
  {| arg0 := metadata_op_name (op i);
     arg1 := type_arg i;
     arg2 := Some (outPath (rods_path i));
     arg3 := attr_name i;
     arg4 := attr_value i;
     arg5 := attr_units i;
     arg6 := Some "";
     arg7 := Some "";
     arg8 := Some "";
     arg9 := Some "" |}.

Context {rcComm_t : Type} {client : IrodsClient rcComm_t}.

(** A [%s] argument of a message; glibc prints [(null)] for [NULL]. *)
Definition text_arg (s : option string) : log_arg :=
  arg_str (default "(null)" s).

Definition modify_metadata (conn : rcComm_t) (path : rodsPath_t) (o : metadata_op)
    (name val units : option string) : Z * rcComm_t * list log_entry :=
  let submit (type : string) :=
    let named_args := {| op := o; type_arg := Some type; rods_path := path;
                         attr_name := name; attr_value := val;
                         attr_units := units |} in
    let anon_args := map_mod_args named_args in
    let '(status, conn) := rcModAVUMetadata conn anon_args in
    if status <? 0 then
      let '(err_name, err_subname) := rodsErrorName status in
      (status, conn,
       logmsg ERROR "Failed to add metadata '%s' -> '%s' to '%s': error %d %s %s"
         [text_arg name; text_arg val; arg_str (outPath path);
          arg_int status; arg_str err_name; arg_str err_subname]
       ++ log_conn_errstack conn)
    else (status, conn, [])
  in
  match objType path with
  | DATA_OBJ_T => submit "-d"
  | COLL_OBJ_T => submit "-C"
  | _ =>
      (-1, conn,
       logmsg ERROR
         "Failed to set metadata on '%s' as it is neither data object nor collection"
         [arg_str (outPath path)])
  end.

End Mutation.

(** The ten positional slots of the update call, in order. *)
Definition arg_vector (a : modAVUMetadataInp_t) : list (option string) :=
  [arg0 a; arg1 a; arg2 a; arg3 a; arg4 a; arg5 a; arg6 a; arg7 a; arg8 a; arg9 a].

(** ** A scripted catalog

    A connection that answers the queries with a prepared list of
    responses, one per call, and with [CAT_NO_ROWS_FOUND] once the list is
    used up; updates are accepted. *)

Definition response : Type := Z * option genQueryOut_t.

#[export] Instance scripted_client : IrodsClient (list response) := {|
  rcGenQuery conn _ :=
    match conn with
    | r :: rest => (r.1, r.2, rest)
    | [] => (CAT_NO_ROWS_FOUND, None, [])
    end;
  rcModAVUMetadata conn _ := (0, conn);
  rError _ := None;
  rodsErrorName _ := ("", "");
|}.

(** A column of texts, each padded with NULs to [stride] bytes. *)
Definition column_of (inx stride : Z) (texts : list string) : sqlResult_t :=
  {| attriInx := inx;
     sr_len := stride;
     sr_value :=
       List.concat
         (map (fun t => chars t ++
                        replicate (Z.to_nat stride - String.length t)%nat Ascii.zero)
            texts) |}.

Definition page_of (token : Z) (rows : Z) (columns : list sqlResult_t) : genQueryOut_t :=
  {| rowCnt := rows;
     attriCnt := Z.of_nat (List.length columns);
     out_continueInx := token;
     sqlResult := columns |}.

(** The values that baton.h gives its constants in the examples. *)
Definition sample_header : BatonHeader :=
  {| MAX_NUM_CONDITIONALS := 20; META_ADD_NAME := "add"; META_REM_NAME := "rm" |}.

(** ** Vocabulary of the statements *)

(** The label of column [i], and the text of a cell that can be read. *)
Definition label_at (labels : list string) (i : Z) : string :=
  default "" (labels !! Z.to_nat i).

Definition cell_text (query_output : genQueryOut_t) (row i : Z) : string :=
  match page_cell query_output row i with
  | Ret s => s
  | _ => ""
  end.

Definition is_ret {A : Type} (m : outcome A) : bool :=
  match m with Ret _ => true | _ => false end.

(** The cell holds a text, and the text is valid UTF-8. *)
Definition cell_ok (query_output : genQueryOut_t) (row i : Z) : bool :=
  match page_cell query_output row i with
  | Ret s => utf8_check_string s
  | _ => false
  end.

(** Every cell of the page holds a text in UTF-8. *)
Definition page_readable (query_output : genQueryOut_t) : bool :=
  forallb
    (fun row => forallb (cell_ok query_output row) (seqZ 0 (attriCnt query_output)))
    (seqZ 0 (rowCnt query_output)).

(** A page that [make_json_objects] can serialize with [labels]: counts
    that are not negative, a label for every column, cells that hold texts
    in UTF-8. *)
Definition page_ok (labels : list string) (query_output : genQueryOut_t) : bool :=
  (0 <=? rowCnt query_output) && (0 <=? attriCnt query_output)
  && (attriCnt query_output <=? Z.of_nat (List.length labels))
  && page_readable query_output.

(** The record of row [row]: the cells of the row, set one after the other
    under the label of their column. *)
Definition row_record (labels : list string) (query_output : genQueryOut_t) (row : Z)
  : json_t :=
  foldl
    (fun jrow i =>
       snd (json_object_set_new jrow (label_at labels i)
              (json_string_of (cell_text query_output row i))))
    json_object (seqZ 0 (attriCnt query_output)).

(** The records of a page, in the order of its rows. *)
Definition page_records (labels : list string) (query_output : genQueryOut_t)
  : list json_t :=
  map (row_record labels query_output) (seqZ 0 (rowCnt query_output)).

(** The continuation tokens of a run of pages: positive on every page but
    the last, and not positive on the last. *)
Fixpoint paged (pages : list genQueryOut_t) : Prop :=
  match pages with
  | [] => False
  | [last] => out_continueInx last <= 0
  | page :: rest => 0 < out_continueInx page /\ paged rest
  end.

Section Serves.
Context {rcComm_t : Type} {client : IrodsClient rcComm_t}.

(** [serves conn qi pages conn' qi']: asked [qi] and then, each time, the
    same query with the token of the page before, the catalog answers the
    [pages] one after the other with status 0. *)
Inductive serves : rcComm_t -> genQueryInp_t -> list genQueryOut_t ->
                   rcComm_t -> genQueryInp_t -> Prop :=
  | serves_done conn query_input : serves conn query_input [] conn query_input
  | serves_page conn query_input page conn1 pages conn' query_input' :
      rcGenQuery conn query_input = (0, Some page, conn1) ->
      serves conn1 (set_continueInx query_input (out_continueInx page)) pages
        conn' query_input' ->
      serves conn query_input (page :: pages) conn' query_input'.

End Serves.

(** The two descriptors of [search_metadata]. *)
Definition col_search_input {header : BatonHeader} (name val : option string)
  : outcome genQueryInp_t :=
  query_input <- make_query_input 10 1 [COL_COLL_NAME; COL_DATA_NAME] ;;
  prepare_col_search query_input name val.

Definition obj_search_input {header : BatonHeader} (name val : option string)
  : outcome genQueryInp_t :=
  query_input <- make_query_input 10 2 [COL_COLL_NAME; COL_DATA_NAME] ;;
  prepare_obj_search query_input name val.

(** A path that names something: it has a character other than the
    separator. *)
Definition names_entry (path : string) : Prop :=
  exists c, c ∈ chars path /\ c <> sep.

(** The conditions of a descriptor, as (column, clause) pairs. *)
Definition conditions (query_input : genQueryInp_t) : list (Z * option string) :=
  let used := Z.to_nat (vp_len (sqlCondInp query_input)) in
  zip (take used (vp_inx (sqlCondInp query_input)))
      (take used (vp_value (sqlCondInp query_input))).

(** A descriptor as [make_query_input] allocates it: two condition arrays
    of [MAX_NUM_CONDITIONALS] cells, the first [len] of them in use. *)
Definition within_ceiling {header : BatonHeader} (query_input : genQueryInp_t) : Prop :=
  List.length (vp_inx (sqlCondInp query_input)) = Z.to_nat MAX_NUM_CONDITIONALS /\
  List.length (vp_value (sqlCondInp query_input)) = Z.to_nat MAX_NUM_CONDITIONALS /\
  0 <= vp_len (sqlCondInp query_input) <= MAX_NUM_CONDITIONALS.

(** A condition whose operator and value are texts, not [NULL]. *)
Definition has_texts (c : query_cond) : Prop :=
  is_Some (operator c) /\ is_Some (value c).

(** The entry that a condition is to leave in the descriptor. *)
Definition compiled (c : query_cond) : Z * option string :=
  (column c, Some (format_cond (default "" (operator c)) (default "" (value c)))).

(** The entries of the record of row [row], column after column. *)
Definition row_entries (labels : list string) (query_output : genQueryOut_t) (row : Z)
  : list (string * json_t) :=
  map (fun i => (label_at labels i, json_string_of (cell_text query_output row i)))
    (seqZ 0 (attriCnt query_output)).

(** The condition of the loop of [do_query] holds: no chunk was fetched
    yet, or the last page carries a positive token. *)
Definition goes_on (chunk_num : Z) (query_output : option genQueryOut_t) : Prop :=
  chunk_num = 0 \/
  exists out, query_output = Some out /\ 0 < out_continueInx out.

(** All the records of a run of pages, page after page. *)
Definition records_of (labels : list string) (pages : list genQueryOut_t)
  : list json_t :=
  List.concat (map (page_records labels) pages).

(** The descriptors of [list_metadata], for a data object and for a
    collection. *)
Definition obj_list_input {header : BatonHeader} (path : rodsPath_t)
    (name : option string) : outcome genQueryInp_t :=
  query_input <-
    make_query_input 10 3
      [COL_META_DATA_ATTR_NAME; COL_META_DATA_ATTR_VALUE; COL_META_DATA_ATTR_UNITS] ;;
  prepare_obj_list query_input path name.

Definition col_list_input {header : BatonHeader} (path : rodsPath_t)
    (name : option string) : outcome genQueryInp_t :=
  query_input <-
    make_query_input 10 3
      [COL_META_COLL_ATTR_NAME; COL_META_COLL_ATTR_VALUE; COL_META_COLL_ATTR_UNITS] ;;
  prepare_col_list query_input path name.

(** A path that the catalog knows as a data object or as a collection. *)
Definition listable (path : rodsPath_t) : Prop :=
  objState path <> NOT_EXIST_ST /\
  (objType path = DATA_OBJ_T \/ objType path = COLL_OBJ_T).

(** The descriptor that [list_metadata] builds for a listable path. *)
Definition list_input {header : BatonHeader} (path : rodsPath_t)
    (name : option string) : outcome genQueryInp_t :=
  match objType path with
  | DATA_OBJ_T => obj_list_input path name
  | _ => col_list_input path name
  end.

(** The conditions under which a path is to be listed: its collection
    and name for a data object, its path for a collection, and the
    attribute when a filter is given. *)
Definition listing_conditions (path : rodsPath_t) (filter : option string)
  : list (Z * option string) :=
  match objType path with
  | DATA_OBJ_T =>
      [(COL_COLL_NAME, Some ("= '" +:+ dirname (outPath path) +:+ "'"));
       (COL_DATA_NAME, Some ("= '" +:+ basename (outPath path) +:+ "'"))]
      ++ match filter with
         | None => []
         | Some a => [(COL_META_DATA_ATTR_NAME, Some ("= '" +:+ a +:+ "'"))]
         end
  | _ =>
      (COL_COLL_NAME, Some ("= '" +:+ outPath path +:+ "'"))
      :: match filter with
         | None => []
         | Some a => [(COL_META_COLL_ATTR_NAME, Some ("= '" +:+ a +:+ "'"))]
         end
  end.

(** The identity entries of the record of a path. *)
Definition identity_entries (path : rodsPath_t) : list (string * json_t) :=
  match objType path with
  | DATA_OBJ_T => [("collection", json_string_of (dirname (outPath path)));
                   ("data_object", json_string_of (basename (outPath path)))]
  | _ => [("collection", json_string_of (outPath path))]
  end.

(** A text that ends with a character of a name, and a name: a text that
    is not empty and holds no separator. *)
Definition ends_in_name (s : string) : Prop :=
  exists start c, chars s = start ++ [c] /\ c <> sep.

Definition simple_name (s : string) : Prop :=
  s <> "" /\ sep ∉ chars s.

(** ** Sample data *)

Definition page1 : genQueryOut_t :=
  page_of 1 3 [column_of COL_COLL_NAME 4 ["/a"; "/b"; "/c"]].
Definition page2 : genQueryOut_t :=
  page_of 0 2 [column_of COL_COLL_NAME 4 ["/d"; "/e"]].
Definition page3 : genQueryOut_t :=
  page_of 0 1 [column_of COL_COLL_NAME 4 ["/d"]; column_of COL_DATA_NAME 4 ["f"]].

Definition empty_input : genQueryInp_t :=
  {| maxRows := 10; continueInx := 0; condInput_len := 0;
     selectInp := {| iv_len := 0; iv_inx := []; iv_value := [] |};
     sqlCondInp := {| vp_len := 0; vp_inx := []; vp_value := [] |} |}.

Definition fresh_input : genQueryInp_t :=
  {| maxRows := 10; continueInx := 0; condInput_len := 0;
     selectInp := {| iv_len := 3;
                     iv_inx := [COL_META_DATA_ATTR_NAME; COL_META_DATA_ATTR_VALUE;
                                COL_META_DATA_ATTR_UNITS];
                     iv_value := [0; 0; 0] |};
     sqlCondInp := {| vp_len := 0;
                      vp_inx := replicate 20 0;
                      vp_value := replicate 20 None |} |}.

Definition sample_path : rodsPath_t :=
  {| objType := DATA_OBJ_T; objState := EXIST_ST;
     inPath := "f.txt"; outPath := "/zone/home/f.txt" |}.

Definition page_neg : genQueryOut_t :=
  page_of (-1) 1 [column_of COL_COLL_NAME 4 ["/a"]].

Definition avu_page : genQueryOut_t :=
  page_of 0 2 [column_of COL_META_DATA_ATTR_NAME 8 ["color"; "size"];
               column_of COL_META_DATA_ATTR_VALUE 8 ["red"; "10"];
               column_of COL_META_DATA_ATTR_UNITS 8 [""; "kB"]].

Definition sample_collection : rodsPath_t :=
  {| objType := COLL_OBJ_T; objState := EXIST_ST;
     inPath := "home"; outPath := "/zone/home" |}.

Definition missing_path : rodsPath_t :=
  {| objType := DATA_OBJ_T; objState := NOT_EXIST_ST;
     inPath := "gone"; outPath := "/zone/home/gone" |}.

Definition local_file : rodsPath_t :=
  {| objType := LOCAL_FILE_T; objState := EXIST_ST;
     inPath := "notes.txt"; outPath := "/tmp/notes.txt" |}.

(** A name in Latin-1, whose last byte [0xE9] is no UTF-8 sequence; a
    page and a path that hold it. *)
Definition latin1_name : string := "caf" +:+ String "233"%char "".

Definition latin1_page : genQueryOut_t :=
  page_of 0 1 [column_of COL_COLL_NAME 8 [latin1_name]].

Definition latin1_path : rodsPath_t :=
  {| objType := COLL_OBJ_T; objState := EXIST_ST;
     inPath := latin1_name; outPath := "/zone/" +:+ latin1_name |}.

(** A catalog that refuses every update with the status -818000. *)
Definition refusing_client : IrodsClient unit :=
  {| rcGenQuery conn _ := (CAT_NO_ROWS_FOUND, None, conn);
     rcModAVUMetadata conn _ := (-818000, conn);
     rError _ := Some ["no access"];
     rodsErrorName _ := ("CAT_NO_ACCESS_PERMISSION", "") |}.

(** The descriptor of the listing of [sample_path] under the filter
    color. *)
Definition listed_input : genQueryInp_t :=
  Eval vm_compute in
    match prepare_obj_list fresh_input sample_path (Some "color") with
    | Ret query_input => query_input
    | _ => fresh_input
    end.

(** ** Examples *)

Example dirname_home : dirname "/zone/home/user/file.txt" = "/zone/home/user".
Proof. reflexivity. Qed.
Example basename_home : basename "/zone/home/user/file.txt" = "file.txt".
Proof. reflexivity. Qed.
Example dirname_top : dirname "/file" = "/" /\ basename "/file" = "file".
Proof. split; reflexivity. Qed.
Example dirname_relative : dirname "file" = "." /\ basename "dir/file/" = "file".
Proof. split; reflexivity. Qed.
Example normalize_example :
  normalize "//zone/./home/" = normalize "/zone/home".
Proof. reflexivity. Qed.

Example make_json_objects_page1 :
  make_json_objects page1 ["collection"] =
  Ret (Some (json_array_of
               [json_object_of [("collection", json_string_of "/a")];
                json_object_of [("collection", json_string_of "/b")];
                json_object_of [("collection", json_string_of "/c")]])).
Proof. reflexivity. Qed.

Example do_query_two_pages :
  do_query 3 [(0, Some page1); (0, Some page2)] empty_input None ["collection"] =
  Ret (Some (json_array_of (page_records ["collection"] page1
                            ++ page_records ["collection"] page2)), [], []).
Proof. reflexivity. Qed.

Example make_query_input_sample :
  @make_query_input sample_header 10 3
    [COL_META_DATA_ATTR_NAME; COL_META_DATA_ATTR_VALUE; COL_META_DATA_ATTR_UNITS]
  = Ret fresh_input.
Proof. reflexivity. Qed.

Example prepare_obj_list_sample :
  (query_input <- prepare_obj_list fresh_input sample_path (Some "color") ;;
   Ret (conditions query_input))
  = Ret [(COL_COLL_NAME, Some "= '/zone/home'"); (COL_DATA_NAME, Some "= 'f.txt'");
         (COL_META_DATA_ATTR_NAME, Some "= 'color'")].
Proof. reflexivity. Qed.

Example make_json_objects_few_labels :
  make_json_objects page3 ["collection"] = Undefined.
Proof. reflexivity. Qed.

(** After [CAT_NO_ROWS_FOUND] on the first call the executor asks again and
    returns what the second call brings. *)
Example do_query_asks_again :
  do_query 3 [(CAT_NO_ROWS_FOUND, None); (0, Some page2)] empty_input None
    ["collection"]
  = Ret (Some (json_array_of [json_object_of [("collection", json_string_of "/d")];
                              json_object_of [("collection", json_string_of "/e")]]),
         [], []).
Proof. reflexivity. Qed.

Example utf8_check_string_sample :
  utf8_check_string "/zone/home/f.txt" = true /\
  utf8_check_string latin1_name = false.
Proof. split; reflexivity. Qed.

Example make_json_objects_latin1 :
  make_json_objects latin1_page ["collection"] = Aborted.
Proof. reflexivity. Qed.

Example dirname_two_separators :
  dirname "//" = "//" /\ dirname "//zone" = "//" /\ dirname "///zone" = "/".
Proof. repeat split; reflexivity. Qed.

Example data_object_path_to_json_root :
  data_object_path_to_json "///"
  = Some (json_object_of [("collection", json_string_of "/");
                          ("data_object", json_string_of "/")]).
Proof. reflexivity. Qed.

Example collection_path_to_json_latin1 :
  collection_path_to_json (outPath latin1_path) = None.
Proof. reflexivity. Qed.

(** * Properties *)

(** ** Loops *)

Lemma for_loop_inv {T : Type} (P : Z -> T -> Prop) (n : nat) (i : Z)
    (body : Z -> T -> outcome T) (s : T) :
  P i s ->
  (forall k t, i <= k < i + Z.of_nat n -> P k t ->
     exists t', body k t = Ret t' /\ P (k + 1) t') ->
  exists s', for_loop n i body s = Ret s' /\ P (i + Z.of_nat n) s'.
Proof.
  revert i s. induction n as [|n IH]; intros i s Hs Hbody.
  - exists s. split; [reflexivity|]. now replace (i + Z.of_nat 0) with i by lia.
  - destruct (Hbody i s) as (t & Ht & HP); [lia|assumption|].
    destruct (IH (i + 1) t HP) as (s' & Hrun & HP').
    + intros k u Hk. apply Hbody. lia.
    + exists s'. simpl. rewrite Ht. simpl. split; [assumption|].
      now replace (i + Z.of_nat (S n)) with (i + 1 + Z.of_nat n) by lia.
Qed.

Lemma for_loop_pure {T : Type} (f : Z -> T -> T) (n : nat) (i : Z)
    (body : Z -> T -> outcome T) (s : T) :
  (forall k t, i <= k < i + Z.of_nat n -> body k t = Ret (f k t)) ->
  for_loop n i body s = Ret (foldl (fun t k => f k t) s (seqZ i (Z.of_nat n))).
Proof.
  revert i s. induction n as [|n IH]; intros i s Hbody.
  - reflexivity.
  - simpl for_loop. rewrite Hbody by lia. simpl bind.
    rewrite IH by (intros; apply Hbody; lia).
    rewrite (seqZ_cons i) by lia. simpl. do 3 f_equal; lia.
Qed.

Lemma for_loop_ext {T : Type} (n : nat) (i : Z) (body body' : Z -> T -> outcome T)
    (s : T) :
  (forall k t, i <= k < i + Z.of_nat n -> body k t = body' k t) ->
  for_loop n i body s = for_loop n i body' s.
Proof.
  revert i s. induction n as [|n IH]; intros i s Hsame; [reflexivity|].
  simpl. rewrite Hsame by lia. destruct (body' i s); simpl; try reflexivity.
  apply IH. intros. apply Hsame. lia.
Qed.

(** The loop stops at the first undefined step. *)
Lemma for_loop_stuck {T : Type} (n m : nat) (i : Z) (body : Z -> T -> outcome T)
    (s t : T) :
  for_loop n i body s = Ret t ->
  body (i + Z.of_nat n) t = Undefined ->
  for_loop (n + S m) i body s = Undefined.
Proof.
  revert i s. induction n as [|n IH]; intros i s Hrun Hbad.
  - injection Hrun as ->. simpl. replace (i + Z.of_nat 0) with i in Hbad by lia.
    now rewrite Hbad.
  - simpl in *. destruct (body i s) as [u| | |]; simpl in *; try discriminate.
    apply IH; [assumption|]. now replace (i + 1 + Z.of_nat n) with (i + Z.of_nat (S n)) by lia.
Qed.

(** ** Texts *)

Lemma substring_all (s : string) : String.substring 0 (String.length s) s = s.
Proof. induction s as [|c s IH]; simpl; [reflexivity|now rewrite IH]. Qed.

Lemma length_string_app (s t : string) :
  String.length (s +:+ t) = (String.length s + String.length t)%nat.
Proof. induction s as [|c s IH]; simpl; [reflexivity|now rewrite IH]. Qed.

(** The buffer that [add_query_conds] allocates holds the whole clause. *)
Lemma snprintf_format_cond (o name : string) :
  snprintf (strlen name + strlen o + 3 + 1) (format_cond o name) = format_cond o name.
Proof.
  unfold snprintf, strlen.
  replace (Z.to_nat _) with (String.length (format_cond o name)).
  - apply substring_all.
  - unfold format_cond. rewrite !length_string_app. simpl. lia.
Qed.

(** ** Conditions *)

Lemma take_succ_insert {A : Type} (l : list A) (n : nat) (x : A) :
  (n < List.length l)%nat -> take (S n) (<[n:=x]> l) = take n l ++ [x].
Proof.
  intros Hn. rewrite (take_S_r _ _ x) by now apply list_lookup_insert_eq.
  now rewrite take_insert_ge by lia.
Qed.

(** One pass of the loop of [add_query_conds], where a cell is left. *)
Lemma add_query_cond_spec (query_input : genQueryInp_t) (c : query_cond) :
  has_texts c ->
  0 <= vp_len (sqlCondInp query_input) ->
  (Z.to_nat (vp_len (sqlCondInp query_input))
   < List.length (vp_inx (sqlCondInp query_input)))%nat ->
  (Z.to_nat (vp_len (sqlCondInp query_input))
   < List.length (vp_value (sqlCondInp query_input)))%nat ->
  exists query_input',
    add_query_cond c query_input = Ret query_input' /\
    conditions query_input' = conditions query_input ++ [compiled c] /\
    vp_len (sqlCondInp query_input') = vp_len (sqlCondInp query_input) + 1 /\
    List.length (vp_inx (sqlCondInp query_input'))
    = List.length (vp_inx (sqlCondInp query_input)) /\
    List.length (vp_value (sqlCondInp query_input'))
    = List.length (vp_value (sqlCondInp query_input)).
Proof.
  intros [[o Ho] [v Hv]] Hlen Hinx Hval.
  destruct query_input as [mr ci cl sel [n inx val]]; simpl in *.
  unfold add_query_cond, compiled. rewrite Ho, Hv. simpl.
  unfold array_set.
  rewrite !decide_True by lia. simpl.
  eexists. split; [reflexivity|].
  unfold conditions; simpl.
  replace (Z.to_nat (n + 1)) with (S (Z.to_nat n)) by lia.
  rewrite !take_succ_insert by assumption.
  rewrite snprintf_format_cond, !length_insert.
  repeat split; try reflexivity.
  pose proof (zip_with_app (@pair Z (option string)) (take (Z.to_nat n) inx) [column c]
                (take (Z.to_nat n) val) [Some (format_cond o v)]) as E.
  apply E.
  rewrite !length_take. lia.
Qed.

Section Conditions.
Context {header : BatonHeader}.

Lemma make_query_input_fresh (max_rows num_columns : Z) (columns : list Z)
    (query_input : genQueryInp_t) :
  make_query_input max_rows num_columns columns = Ret query_input ->
  0 <= MAX_NUM_CONDITIONALS ->
  within_ceiling query_input /\ vp_len (sqlCondInp query_input) = 0 /\
  conditions query_input = [] /\ continueInx query_input = 0.
Proof.
  unfold make_query_input. intros Hrun Hmax.
  destruct (for_range _ _ _ _) as [cols| | |]; simpl in Hrun; try discriminate.
  destruct (array_set _ _ _) as [ops| | |]; simpl in Hrun; try discriminate.
  injection Hrun as <-. unfold within_ceiling, conditions, calloc; simpl.
  rewrite !length_replicate. repeat split; lia.
Qed.

Lemma make_query_input_runs (max_rows num_columns : Z) (columns : list Z) :
  0 < num_columns <= Z.of_nat (List.length columns) ->
  exists query_input, make_query_input max_rows num_columns columns = Ret query_input.
Proof.
  intros Hn. unfold make_query_input, for_range.
  destruct (for_loop_inv
              (fun _ (cols : list Z) => List.length cols = Z.to_nat num_columns)
              (Z.to_nat (num_columns - 0)) 0
              (fun i cols => c <- array_get columns i ;; array_set cols i c)
              (calloc num_columns 0)) as (cols & -> & _).
  - unfold calloc. now rewrite length_replicate.
  - intros k t Hk Ht. unfold array_get. rewrite decide_True by lia.
    destruct (lookup_lt_is_Some_2 columns (Z.to_nat k)) as [c ->]; [lia|].
    simpl. unfold array_set. rewrite decide_True by lia.
    eexists. split; [reflexivity|]. now rewrite length_insert.
  - simpl. unfold array_set, calloc. rewrite length_replicate.
    rewrite decide_True by lia. simpl. eauto.
Qed.

(** The loop of [add_query_conds], while the arrays have room. *)
Lemma add_query_conds_spec (query_input : genQueryInp_t) (conds : list query_cond) :
  within_ceiling query_input ->
  Forall has_texts conds ->
  vp_len (sqlCondInp query_input) + Z.of_nat (List.length conds)
  <= MAX_NUM_CONDITIONALS ->
  exists query_input',
    add_query_conds query_input (Z.of_nat (List.length conds)) conds = Ret query_input' /\
    conditions query_input' = conditions query_input ++ map compiled conds /\
    vp_len (sqlCondInp query_input')
    = vp_len (sqlCondInp query_input) + Z.of_nat (List.length conds) /\
    within_ceiling query_input'.
Proof.
  intros (Hinx & Hval & Hlen) Htexts Hroom.
  unfold add_query_conds, for_range.
  replace (Z.to_nat (Z.of_nat (List.length conds) - 0)) with (List.length conds) by lia.
  destruct (for_loop_inv
              (fun k q =>
                 List.length (vp_inx (sqlCondInp q)) = Z.to_nat MAX_NUM_CONDITIONALS /\
                 List.length (vp_value (sqlCondInp q)) = Z.to_nat MAX_NUM_CONDITIONALS /\
                 vp_len (sqlCondInp q) = vp_len (sqlCondInp query_input) + k /\
                 conditions q
                 = conditions query_input ++ map compiled (take (Z.to_nat k) conds))
              (List.length conds) 0
              (fun i q => c <- array_get conds i ;; add_query_cond c q)
              query_input) as (q & Hrun & Hi & Hv & Hl & Hc).
  - repeat split; try assumption; [lia|]. simpl. now rewrite app_nil_r.
  - intros k q Hk (Hi & Hv & Hl & Hc).
    unfold array_get. rewrite decide_True by lia.
    destruct (lookup_lt_is_Some_2 conds (Z.to_nat k)) as [c Hcond]; [lia|].
    rewrite Hcond. simpl.
    destruct (add_query_cond_spec q c) as (q' & Hq' & Hc' & Hl' & Hi' & Hv').
    + eapply Forall_lookup_1; eassumption.
    + lia.
    + lia.
    + lia.
    + exists q'. split; [assumption|]. repeat split; try lia.
      rewrite Hc', Hc, <- app_assoc. f_equal.
      replace (Z.to_nat (k + 1)) with (S (Z.to_nat k)) by lia.
      rewrite (take_S_r _ _ c) by assumption. now rewrite map_app.
  - exists q. split; [assumption|].
    rewrite Hc. replace (Z.to_nat (0 + Z.of_nat (List.length conds)))
      with (List.length conds) by lia.
    rewrite firstn_all. unfold within_ceiling. repeat split; try assumption; lia.
Qed.

(** One condition more than the arrays hold: the write of the last one
    falls outside them. *)
Lemma add_query_conds_overflow (query_input : genQueryInp_t) (conds : list query_cond)
    (c : query_cond) :
  within_ceiling query_input ->
  Forall has_texts conds -> has_texts c ->
  vp_len (sqlCondInp query_input) + Z.of_nat (List.length conds)
  = MAX_NUM_CONDITIONALS ->
  add_query_conds query_input (Z.of_nat (List.length conds) + 1) (conds ++ [c])
  = Undefined.
Proof.
  intros Hin Htexts [[o Ho] [v Hv]] Hfull.
  destruct (add_query_conds_spec query_input conds) as (q & Hrun & _ & Hl & Hq);
    [assumption|assumption|lia|].
  unfold add_query_conds, for_range in *.
  replace (Z.to_nat (Z.of_nat (List.length conds) + 1 - 0))
    with (List.length conds + 1)%nat by lia.
  replace (Z.to_nat (Z.of_nat (List.length conds) - 0))
    with (List.length conds) in Hrun by lia.
  apply (for_loop_stuck _ 0 _ _ _ q).
  - rewrite <- Hrun. apply for_loop_ext. intros k t Hk.
    unfold array_get. rewrite !decide_True by lia.
    now rewrite lookup_app_l by lia.
  - unfold array_get. rewrite decide_True by lia.
    rewrite lookup_app_r by lia.
    replace (Z.to_nat (0 + Z.of_nat (List.length conds)) - List.length conds)%nat
      with 0%nat by lia.
    simpl. unfold add_query_cond. rewrite Ho, Hv. simpl.
    destruct Hq as (Hi & _ & _). unfold array_set at 1.
    rewrite decide_False by lia. reflexivity.
Qed.

End Conditions.

Lemma length_conditions {header : BatonHeader} (query_input : genQueryInp_t) :
  within_ceiling query_input ->
  Z.of_nat (List.length (conditions query_input)) = vp_len (sqlCondInp query_input).
Proof.
  intros (Hinx & Hval & Hlen). unfold conditions.
  rewrite length_zip, !length_take. lia.
Qed.

(** C6 (amended). While the conditions given, added to those already in the
    descriptor, do not exceed [MAX_NUM_CONDITIONALS], and each has an
    operator and a value, [add_query_conds] appends the compiled clause of
    each, with its column, in the order given; every write lands inside the
    preallocated arrays (the call returns), and the number of conditions
    stays within the ceiling. The function makes no check of the ceiling:
    keeping within it is left to the caller. *)
Theorem add_query_conds_within_ceiling {header : BatonHeader}
    (query_input : genQueryInp_t) (conds : list query_cond) :
  within_ceiling query_input ->
  Forall has_texts conds ->
  vp_len (sqlCondInp query_input) + Z.of_nat (List.length conds)
  <= MAX_NUM_CONDITIONALS ->
  exists query_input',
    add_query_conds query_input (Z.of_nat (List.length conds)) conds = Ret query_input' /\
    conditions query_input' = conditions query_input ++ map compiled conds /\
    Z.of_nat (List.length (conditions query_input')) <= MAX_NUM_CONDITIONALS /\
    within_ceiling query_input'.
Proof.
  intros Hin Htexts Hroom.
  destruct (add_query_conds_spec query_input conds Hin Htexts Hroom)
    as (q & Hrun & Hconds & Hlen & Hin').
  exists q. split; [exact Hrun|]. split; [exact Hconds|]. split; [|exact Hin'].
  rewrite (length_conditions q Hin'), Hlen. exact Hroom.
Qed.

(** C6, as stated, fails: one condition more than the ceiling (21 of them
    on a fresh descriptor, the ceiling being 20) is no detected violation;
    the write of the last one falls outside the arrays. *)
Lemma add_query_conds_past_ceiling :
  (query_input <- @make_query_input sample_header 10 1 [COL_COLL_NAME] ;;
   add_query_conds query_input 21
     (replicate 21 {| column := COL_COLL_NAME; operator := Some "=";
                      value := Some "/zone" |}))
  = Undefined.
Proof. vm_compute. reflexivity. Qed.

(** C7. The clause compiled for a condition (column, operator, rawValue) is
    the operator, a space, a single quote, the raw value as it is, a single
    quote; quotes inside the value are not escaped. *)
Theorem add_query_conds_clause {header : BatonHeader} (query_input : genQueryInp_t)
    (col : Z) (o rawValue : string) :
  within_ceiling query_input ->
  vp_len (sqlCondInp query_input) + 1 <= MAX_NUM_CONDITIONALS ->
  exists query_input',
    add_query_conds query_input 1
      [{| column := col; operator := Some o; value := Some rawValue |}]
    = Ret query_input' /\
    conditions query_input'
    = conditions query_input ++ [(col, Some (o +:+ " '" +:+ rawValue +:+ "'"))].
Proof.
  intros Hin Hroom.
  destruct (add_query_conds_spec query_input
              [{| column := col; operator := Some o; value := Some rawValue |}])
    as (q & Hrun & Hc & _); [assumption| |simpl; lia|].
  - constructor; [|constructor]. split; simpl; eauto.
  - exists q. split; assumption.
Qed.

(** C5 (amended). On a fresh descriptor, [prepare_obj_list] leaves exactly
    2 conditions (collection and data-object name) when the attribute
    filter is absent ([NULL]), and exactly 3 when it is present, the third
    comparing the attribute name with the filter. *)
Theorem prepare_obj_list_conditions {header : BatonHeader}
    (max_rows num_columns : Z) (columns : list Z) (query_input : genQueryInp_t)
    (path : rodsPath_t) (filter : option string) :
  make_query_input max_rows num_columns columns = Ret query_input ->
  3 <= MAX_NUM_CONDITIONALS ->
  exists query_input',
    prepare_obj_list query_input path filter = Ret query_input' /\
    vp_len (sqlCondInp query_input') = match filter with None => 2 | Some _ => 3 end /\
    conditions query_input'
    = [(COL_COLL_NAME, Some ("= '" +:+ dirname (outPath path) +:+ "'"));
       (COL_DATA_NAME, Some ("= '" +:+ basename (outPath path) +:+ "'"))]
      ++ match filter with
         | None => []
         | Some a => [(COL_META_DATA_ATTR_NAME, Some ("= '" +:+ a +:+ "'"))]
         end.
Proof.
  intros Hfresh Hmax.
  destruct (make_query_input_fresh _ _ _ _ Hfresh) as (Hin & Hlen & Hnone & _); [lia|].
  unfold prepare_obj_list.
  destruct filter as [a|].
  - destruct (add_query_conds_spec query_input
                [{| column := COL_COLL_NAME; operator := Some "=";
                    value := Some (dirname (outPath path)) |};
                 {| column := COL_DATA_NAME; operator := Some "=";
                    value := Some (basename (outPath path)) |};
                 {| column := COL_META_DATA_ATTR_NAME; operator := Some "=";
                    value := Some a |}])
      as (q & Hrun & Hc & Hl & _); [assumption| |simpl; lia|].
    + repeat constructor; simpl; eauto.
    + exists q. split; [exact Hrun|]. rewrite Hl, Hc, Hlen, Hnone. split; reflexivity.
  - destruct (add_query_conds_spec query_input
                [{| column := COL_COLL_NAME; operator := Some "=";
                    value := Some (dirname (outPath path)) |};
                 {| column := COL_DATA_NAME; operator := Some "=";
                    value := Some (basename (outPath path)) |}])
      as (q & Hrun & Hc & Hl & _); [assumption| |simpl; lia|].
    + repeat constructor; simpl; eauto.
    + exists q. split; [exact Hrun|]. rewrite Hl, Hc, Hlen, Hnone. split; reflexivity.
Qed.

(** C5, as stated, fails for the empty filter: it is not [NULL], so it gives
    3 conditions, the third asking for the attribute named by the empty
    text. *)
Lemma prepare_obj_list_empty_filter :
  (query_input <- prepare_obj_list fresh_input sample_path (Some "") ;;
   Ret (conditions query_input))
  = Ret [(COL_COLL_NAME, Some "= '/zone/home'"); (COL_DATA_NAME, Some "= 'f.txt'");
         (COL_META_DATA_ATTR_NAME, Some "= ''")].
Proof. reflexivity. Qed.

(** ** Result pages *)

Lemma set_member_fresh (members : list (string * json_t)) (key : string) (v : json_t) :
  key ∉ members.*1 -> set_member members key v = members ++ [(key, v)].
Proof.
  induction members as [|[k w] members IH]; intros Hfresh; [reflexivity|].
  simpl in *. apply not_elem_of_cons in Hfresh as [Hne Hfresh].
  destruct (String.eqb_spec k key) as [->|_]; [congruence|].
  now rewrite IH.
Qed.

Lemma json_object_set_new_valid (members : list (string * json_t)) (key : string)
    (v : json_t) :
  utf8_check_string key = true ->
  json_object_set_new (json_object_of members) key v
  = (0, json_object_of (set_member members key v)).
Proof. intros Hkey. unfold json_object_set_new. now rewrite Hkey. Qed.

Lemma json_object_set_new_refused (obj : json_t) (key : string) (v : json_t) :
  utf8_check_string key = false -> json_object_set_new obj key v = (-1, obj).
Proof. intros Hkey. unfold json_object_set_new. now rewrite Hkey. Qed.

Lemma foldl_set_member (g : Z -> string * json_t) (l : list Z)
    (members : list (string * json_t)) :
  Forall (fun key => utf8_check_string key = true) (map g l).*1 ->
  NoDup (members.*1 ++ (map g l).*1) ->
  foldl (fun jrow i => snd (json_object_set_new jrow (g i).1 (g i).2))
    (json_object_of members) l
  = json_object_of (members ++ map g l).
Proof.
  revert members. induction l as [|i l IH]; intros members Hvalid Hnodup;
    cbn [foldl map fmap list_fmap] in *.
  - now rewrite app_nil_r.
  - apply Forall_cons in Hvalid as [Hkey Hvalid].
    apply NoDup_app in Hnodup as (Hm & Hdisj & Hl).
    apply NoDup_cons in Hl as [Hi Hl].
    rewrite json_object_set_new_valid by assumption. cbn [snd].
    rewrite set_member_fresh.
    + rewrite IH; [|assumption|].
      * rewrite <- app_assoc. simpl. now destruct (g i).
      * rewrite fmap_app. simpl. apply NoDup_app. repeat split.
        -- apply NoDup_app. repeat split; [assumption| |apply NoDup_singleton].
           intros x Hx Hx'. apply list_elem_of_singleton in Hx' as ->.
           apply (Hdisj _ Hx). simpl. left.
        -- intros x Hx Hx'. apply elem_of_app in Hx as [Hx|Hx].
           ++ apply (Hdisj _ Hx). simpl. now right.
           ++ apply list_elem_of_singleton in Hx as ->. contradiction.
        -- assumption.
    + intros Hin. apply (Hdisj _ Hin). simpl. left.
Qed.

Lemma labels_of_columns (labels : list string) (n : Z) :
  n <= Z.of_nat (List.length labels) ->
  map (label_at labels) (seqZ 0 n) = take (Z.to_nat n) labels.
Proof.
  intros Hn. apply list_eq. intros i.
  rewrite list_lookup_fmap.
  destruct (decide (Z.of_nat i < n)) as [Hi|Hi].
  - rewrite lookup_seqZ_lt by assumption. rewrite lookup_take_lt by lia.
    simpl. unfold label_at. replace (Z.to_nat (0 + Z.of_nat i)) with i by lia.
    destruct (lookup_lt_is_Some_2 labels i) as [x ->]; [lia|reflexivity].
  - rewrite lookup_seqZ_ge by lia. now rewrite lookup_take_ge by lia.
Qed.

Lemma row_entries_keys (labels : list string) (query_output : genQueryOut_t) (row : Z) :
  attriCnt query_output <= Z.of_nat (List.length labels) ->
  (row_entries labels query_output row).*1
  = take (Z.to_nat (attriCnt query_output)) labels.
Proof.
  intros Hn. unfold row_entries.
  rewrite <- labels_of_columns by assumption.
  rewrite <- list_fmap_compose. reflexivity.
Qed.

(** With distinct labels in UTF-8 no entry of a record is refused or
    replaces another. *)
Lemma row_record_distinct (labels : list string) (query_output : genQueryOut_t)
    (row : Z) :
  attriCnt query_output <= Z.of_nat (List.length labels) ->
  Forall (fun label => utf8_check_string label = true)
    (take (Z.to_nat (attriCnt query_output)) labels) ->
  NoDup (take (Z.to_nat (attriCnt query_output)) labels) ->
  row_record labels query_output row
  = json_object_of (row_entries labels query_output row).
Proof.
  intros Hn Hvalid Hnodup. unfold row_record, json_object.
  rewrite (foldl_set_member
             (fun i => (label_at labels i,
                        json_string_of (cell_text query_output row i)))).
  - reflexivity.
  - fold (row_entries labels query_output row). now rewrite row_entries_keys.
  - simpl. fold (row_entries labels query_output row).
    now rewrite row_entries_keys.
Qed.

Lemma page_cell_inv (query_output : genQueryOut_t) (row i : Z) (text : string) :
  page_cell query_output row i = Ret text ->
  exists col,
    array_get (sqlResult query_output) i = Ret col /\
    cstr_at (sr_value col) (row * sr_len col) = Ret text.
Proof.
  unfold page_cell. destruct (array_get _ _) as [col| | |]; simpl; try discriminate.
  eauto.
Qed.

Lemma page_ok_inv (labels : list string) (query_output : genQueryOut_t) :
  page_ok labels query_output = true ->
  0 <= rowCnt query_output /\
  0 <= attriCnt query_output <= Z.of_nat (List.length labels) /\
  forall row i, 0 <= row < rowCnt query_output -> 0 <= i < attriCnt query_output ->
    page_cell query_output row i = Ret (cell_text query_output row i) /\
    utf8_check_string (cell_text query_output row i) = true.
Proof.
  unfold page_ok, page_readable. intros Hok.
  apply andb_prop in Hok as [Hok Hread]. apply andb_prop in Hok as [Hok Hlab].
  apply andb_prop in Hok as [Hrow Hcol].
  split; [lia|split; [lia|]].
  intros row i Hrow' Hi.
  rewrite forallb_forall in Hread.
  assert (In row (seqZ 0 (rowCnt query_output))) as Hin
    by (apply list_elem_of_In, elem_of_seqZ; lia).
  specialize (Hread _ Hin). rewrite forallb_forall in Hread.
  assert (In i (seqZ 0 (attriCnt query_output))) as Hin'
    by (apply list_elem_of_In, elem_of_seqZ; lia).
  specialize (Hread _ Hin'). unfold cell_ok in Hread. unfold cell_text.
  destruct (page_cell query_output row i); try discriminate. now split.
Qed.

Lemma foldl_append_rows (g : Z -> json_t) (l : list Z) (items : list json_t) :
  foldl
    (fun (array : option json_t) row =>
       match array with
       | None => None
       | Some array =>
           let '(status, array') := json_array_append_new array (g row) in
           if negb (status =? 0) then None else Some array'
       end)
    (Some (json_array_of items)) l
  = Some (json_array_of (items ++ map g l)).
Proof.
  revert items. induction l as [|row l IH]; intros items; simpl.
  - now rewrite app_nil_r.
  - rewrite IH, <- app_assoc. reflexivity.
Qed.

(** A page that can be serialized gives its records, row after row. *)
Lemma make_json_objects_spec (labels : list string) (query_output : genQueryOut_t) :
  page_ok labels query_output = true ->
  make_json_objects query_output labels
  = Ret (Some (json_array_of (page_records labels query_output))).
Proof.
  intros Hok. destruct (page_ok_inv _ _ Hok) as (Hrows & Hcols & Hcells).
  unfold make_json_objects, for_range.
  rewrite (for_loop_pure
             (fun row (array : option json_t) =>
                match array with
                | None => None
                | Some array =>
                    let '(status, array') :=
                      json_array_append_new array (row_record labels query_output row) in
                    if negb (status =? 0) then None else Some array'
                end)).
  - cbv beta. unfold json_array.
    rewrite (foldl_append_rows (row_record labels query_output)).
    simpl. unfold page_records.
    now replace (Z.of_nat (Z.to_nat (rowCnt query_output - 0)))
      with (rowCnt query_output) by lia.
  - intros row [array|] Hrow; [|reflexivity].
    rewrite (for_loop_pure
               (fun i jrow =>
                  snd (json_object_set_new jrow (label_at labels i)
                         (json_string_of (cell_text query_output row i))))).
    + simpl. unfold row_record.
      replace (Z.of_nat (Z.to_nat (attriCnt query_output - 0)))
        with (attriCnt query_output) by lia.
      now destruct (json_array_append_new _ _) as [status array'], (negb _).
    + intros i jrow Hi. destruct (Hcells row i) as [Hcell Hutf8]; [lia..|].
      destruct (page_cell_inv _ _ _ _ Hcell) as (col & -> & Htext). cbn [bind].
      unfold array_get at 1, label_at. rewrite decide_True by lia.
      destruct (lookup_lt_is_Some_2 labels (Z.to_nat i)) as [x ->]; [lia|].
      cbn [bind default]. rewrite Htext. cbn [bind].
      unfold json_string. rewrite Hutf8. reflexivity.
Qed.

Lemma length_page_records (labels : list string) (query_output : genQueryOut_t) :
  List.length (page_records labels query_output) = Z.to_nat (rowCnt query_output).
Proof. unfold page_records. now rewrite length_map, length_seqZ. Qed.

(** C8 (amended). [make_json_objects] receives no label count and checks
    none: of the labels it uses the first [attriCnt] and leaves the others
    aside. When there is a label for every column, the labels used are
    distinct and valid UTF-8, and the cells hold texts in valid UTF-8,
    every row of the page becomes one record, whose entries pair those
    labels, in their order, with the cells of the row; with as many labels
    as columns these are all the labels. *)
Theorem make_json_objects_labelled (labels : list string) (query_output : genQueryOut_t) :
  page_ok labels query_output = true ->
  Forall (fun label => utf8_check_string label = true)
    (take (Z.to_nat (attriCnt query_output)) labels) ->
  NoDup (take (Z.to_nat (attriCnt query_output)) labels) ->
  make_json_objects query_output labels
  = Ret (Some (json_array_of
                 (map (fun row => json_object_of (row_entries labels query_output row))
                    (seqZ 0 (rowCnt query_output))))) /\
  (forall row,
     keys (json_object_of (row_entries labels query_output row))
     = take (Z.to_nat (attriCnt query_output)) labels) /\
  (attriCnt query_output = Z.of_nat (List.length labels) ->
   forall row, keys (json_object_of (row_entries labels query_output row)) = labels).
Proof.
  intros Hok Hvalid Hnodup. destruct (page_ok_inv _ _ Hok) as (_ & Hcols & _).
  split; [|split].
  - rewrite make_json_objects_spec by assumption. unfold page_records.
    do 3 f_equal. apply map_ext. intros row.
    apply row_record_distinct; [lia|assumption..].
  - intros row. simpl. apply row_entries_keys. lia.
  - intros Hsame row. simpl. rewrite row_entries_keys by lia.
    apply firstn_all2. lia.
Qed.

(** C8, as stated, fails: with two labels for a page of one column nothing
    is reported; the second label is dropped without notice. *)
Lemma make_json_objects_more_labels :
  attriCnt page1 = 1 /\
  make_json_objects page1 ["collection"; "data_object"]
  = Ret (Some (json_array_of
                 [json_object_of [("collection", json_string_of "/a")];
                  json_object_of [("collection", json_string_of "/b")];
                  json_object_of [("collection", json_string_of "/c")]])).
Proof. split; reflexivity. Qed.

(** ** Chunked execution *)

Section ExecutorFacts.
Context {rcComm_t : Type} {client : IrodsClient rcComm_t}.
Implicit Types (conn : rcComm_t) (labels : list string).

Lemma goes_on_next (chunk_num : Z) (page : genQueryOut_t) :
  0 <= chunk_num -> 0 < out_continueInx page -> goes_on (chunk_num + 1) (Some page).
Proof. intros _ Htoken. right. eauto. Qed.

Lemma loop_test (chunk_num : Z) (query_output : option genQueryOut_t) :
  goes_on chunk_num query_output ->
  (if chunk_num =? 0 then Ret true
   else match query_output with
        | Some out => Ret (0 <? out_continueInx out)
        | None => Undefined
        end) = Ret true.
Proof.
  intros [->|(out & -> & Htoken)]; [reflexivity|].
  destruct (chunk_num =? 0); [reflexivity|].
  f_equal. now apply Z.ltb_lt.
Qed.

(** A status other than 0 and [CAT_NO_ROWS_FOUND] ends the loop at once,
    whatever was accumulated. *)
Lemma do_query_loop_bad_status fuel conn query_input query_output labels
    chunk_num results status out conn' :
  goes_on chunk_num query_output ->
  rcGenQuery conn query_input = (status, out, conn') ->
  status <> 0 -> status <> CAT_NO_ROWS_FOUND ->
  do_query_loop (S fuel) conn query_input query_output labels chunk_num results
  = Ret (do_query_error conn' chunk_num status).
Proof.
  intros Hgo Hanswer Hnz Hrows. simpl.
  rewrite (loop_test _ _ Hgo). simpl. rewrite Hanswer.
  destruct (Z.eqb_spec status CAT_NO_ROWS_FOUND); [contradiction|].
  destruct (Z.eqb_spec status 0); [contradiction|]. reflexivity.
Qed.

(** A page with status 0 is serialized and appended, and the loop goes
    round again with its token. *)
Lemma do_query_loop_page fuel conn query_input query_output labels chunk_num
    items page conn' :
  goes_on chunk_num query_output ->
  rcGenQuery conn query_input = (0, Some page, conn') ->
  page_ok labels page = true ->
  do_query_loop (S fuel) conn query_input query_output labels chunk_num
    (json_array_of items)
  = do_query_loop fuel conn' (set_continueInx query_input (out_continueInx page))
      (Some page) labels (chunk_num + 1)
      (json_array_of (items ++ page_records labels page)).
Proof.
  intros Hgo Hanswer Hok. simpl.
  rewrite (loop_test _ _ Hgo). simpl. rewrite Hanswer. simpl.
  rewrite make_json_objects_spec by assumption. reflexivity.
Qed.

(** The loop ends after a page whose token is not positive. *)
Lemma do_query_loop_last fuel conn query_input labels chunk_num results page :
  chunk_num <> 0 -> out_continueInx page <= 0 ->
  do_query_loop (S fuel) conn query_input (Some page) labels chunk_num results
  = Ret (Some results, conn, []).
Proof.
  intros Hchunk Htoken. simpl.
  destruct (Z.eqb_spec chunk_num 0); [contradiction|].
  destruct (Z.ltb_spec 0 (out_continueInx page)); [lia|]. reflexivity.
Qed.

(** Pages with positive tokens: the loop takes them one by one. *)
Lemma do_query_loop_prefix labels conn query_input pages conn' query_input' :
  serves conn query_input pages conn' query_input' ->
  Forall (fun page => page_ok labels page = true) pages ->
  Forall (fun page => 0 < out_continueInx page) pages ->
  forall fuel query_output chunk_num items,
    0 <= chunk_num -> goes_on chunk_num query_output ->
    exists query_output',
      goes_on (chunk_num + Z.of_nat (List.length pages)) query_output' /\
      do_query_loop (List.length pages + fuel) conn query_input query_output labels
        chunk_num (json_array_of items)
      = do_query_loop fuel conn' query_input' query_output' labels
          (chunk_num + Z.of_nat (List.length pages))
          (json_array_of (items ++ records_of labels pages)).
Proof.
  induction 1 as [conn query_input|conn query_input page conn1 pages conn' query_input'
                                    Hanswer Hserves IH];
    intros Hok Htokens fuel query_output chunk_num items Hchunk Hgo.
  - exists query_output. simpl. rewrite Z.add_0_r, app_nil_r. split; [assumption|reflexivity].
  - apply Forall_cons in Hok as [Hok Hoks].
    apply Forall_cons in Htokens as [Htoken Htokens].
    destruct (IH Hoks Htokens fuel (Some page) (chunk_num + 1)
                (items ++ page_records labels page)) as (query_output' & Hgo' & Hrun);
      [lia|now apply goes_on_next|].
    exists query_output'.
    replace (chunk_num + Z.of_nat (List.length (page :: pages)))
      with (chunk_num + 1 + Z.of_nat (List.length pages)) by (simpl; lia).
    split; [assumption|].
    change (List.length (page :: pages) + fuel)%nat
      with (S (List.length pages + fuel)).
    rewrite (do_query_loop_page _ _ _ _ _ _ _ _ _ Hgo Hanswer Hok), Hrun.
    unfold records_of. simpl. now rewrite <- app_assoc.
Qed.

(** A run of pages that ends with a token that is not positive. *)
Lemma do_query_loop_pages labels conn query_input pages conn' query_input' :
  serves conn query_input pages conn' query_input' ->
  Forall (fun page => page_ok labels page = true) pages ->
  paged pages ->
  forall fuel query_output chunk_num items,
    0 <= chunk_num -> goes_on chunk_num query_output ->
    (List.length pages < fuel)%nat ->
    do_query_loop fuel conn query_input query_output labels chunk_num
      (json_array_of items)
    = Ret (Some (json_array_of (items ++ records_of labels pages)), conn', []).
Proof.
  induction 1 as [conn query_input|conn query_input page conn1 pages conn' query_input'
                                    Hanswer Hserves IH];
    intros Hok Hpaged fuel query_output chunk_num items Hchunk Hgo Hfuel.
  - destruct Hpaged.
  - apply Forall_cons in Hok as [Hok Hoks].
    destruct fuel as [|fuel]; [simpl in Hfuel; lia|].
    rewrite (do_query_loop_page _ _ _ _ _ _ _ _ _ Hgo Hanswer Hok).
    destruct pages as [|page' pages].
    + inversion Hserves; subst. simpl in Hpaged.
      destruct fuel as [|fuel]; [simpl in Hfuel; lia|].
      rewrite do_query_loop_last by lia.
      unfold records_of. simpl. now rewrite app_nil_r.
    + destruct Hpaged as [Htoken Hpaged].
      rewrite IH; try assumption.
      * unfold records_of. simpl. now rewrite <- app_assoc.
      * lia.
      * now apply goes_on_next.
      * simpl in *. lia.
Qed.

Lemma do_query_pages labels conn query_input pages conn' query_input' fuel :
  serves conn query_input pages conn' query_input' ->
  Forall (fun page => page_ok labels page = true) pages ->
  paged pages ->
  (List.length pages < fuel)%nat ->
  do_query fuel conn query_input None labels
  = Ret (Some (json_array_of (records_of labels pages)), conn', []).
Proof.
  intros Hserves Hok Hpaged Hfuel. unfold do_query, json_array.
  rewrite (do_query_loop_pages labels _ _ _ _ _ Hserves Hok Hpaged);
    [reflexivity|lia|now left|assumption].
Qed.

End ExecutorFacts.

Lemma length_records_of (labels : list string) (pages : list genQueryOut_t) :
  Forall (fun page => page_ok labels page = true) pages ->
  Z.of_nat (List.length (records_of labels pages))
  = foldr (fun page total => rowCnt page + total) 0 pages.
Proof.
  unfold records_of. induction 1 as [|page pages Hok _ IH]; simpl; [reflexivity|].
  rewrite length_app, length_page_records, Nat2Z.inj_add, IH.
  apply page_ok_inv in Hok as (Hrows & _). lia.
Qed.

(** C1. The claim holds of the specification, not of the code: on
    [CAT_NO_ROWS_FOUND] the loop neither leaves nor counts a chunk, so its
    condition [chunk_num == 0] still holds and the query is sent again.
    Against a catalog that has no rows, and says so at every call,
    [do_query] returns nothing with any amount of fuel. *)
Theorem do_query_no_rows_spins (fuel : nat) (query_input : genQueryInp_t)
    (labels : list string) :
  do_query fuel ([] : list response) query_input None labels = OutOfFuel.
Proof.
  unfold do_query. generalize (@None genQueryOut_t) json_array.
  induction fuel as [|fuel IH]; intros query_output results; [reflexivity|].
  simpl. apply IH.
Qed.

Section ExecutorClaims.
Context {rcComm_t : Type} {client : IrodsClient rcComm_t}.

(** C2 (amended). When the catalog answers a query with a run of pages
    that can be serialized (counts that are not negative, a label for
    every column, cells that hold texts in valid UTF-8), of which every
    one but the last carries a positive continuation token, and the last
    a token that is not positive, [do_query] returns the records of the
    pages, page after page in the order of arrival and, within a page,
    row after row; none is moved or dropped, and their number is the sum
    of the row counts of the pages. *)
Theorem do_query_concatenates_pages (labels : list string) (conn conn' : rcComm_t)
    (query_input query_input' : genQueryInp_t) (pages : list genQueryOut_t)
    (fuel : nat) :
  serves conn query_input pages conn' query_input' ->
  Forall (fun page => page_ok labels page = true) pages ->
  paged pages ->
  (List.length pages < fuel)%nat ->
  do_query fuel conn query_input None labels
  = Ret (Some (json_array_of (List.concat (map (page_records labels) pages))),
         conn', []) /\
  Z.of_nat (List.length (List.concat (map (page_records labels) pages)))
  = foldr (fun page total => rowCnt page + total) 0 pages.
Proof.
  intros Hserves Hok Hpaged Hfuel. split.
  - now apply (do_query_pages labels _ _ _ _ _ _ Hserves).
  - now apply length_records_of.
Qed.

(** C3. When, after any number of pages with positive tokens, the catalog
    answers with a status that is neither 0 nor [CAT_NO_ROWS_FOUND],
    [do_query] stops there and returns [NULL]: none of the records
    accumulated reaches the caller. The failure is reported in one
    [ERROR] message that carries the number of chunks fetched, the status
    and its two names, followed by the error stack of the connection,
    line by line, when there is one. The same holds wherever the loop
    stands: whatever it has accumulated, such a status makes it return
    [NULL] at once. *)
Theorem do_query_fails_whole (labels : list string) (conn conn1 conn2 : rcComm_t)
    (query_input query_input1 : genQueryInp_t) (pages : list genQueryOut_t)
    (status : Z) (out : option genQueryOut_t) (fuel : nat) :
  serves conn query_input pages conn1 query_input1 ->
  Forall (fun page => page_ok labels page = true) pages ->
  Forall (fun page => 0 < out_continueInx page) pages ->
  rcGenQuery conn1 query_input1 = (status, out, conn2) ->
  status <> 0 -> status <> CAT_NO_ROWS_FOUND ->
  (List.length pages < fuel)%nat ->
  let failure (chunk_num : Z) : list log_entry :=
    {| level := ERROR;
       format := "Failed get query result: in chunk %d error %d %s %s";
       args := [arg_int chunk_num; arg_int status;
                arg_str (rodsErrorName status).1; arg_str (rodsErrorName status).2] |}
    :: match rError conn2 with
       | Some error =>
           imap (fun i msg => {| level := ERROR; format := "Level %d: %s";
                                 args := [arg_int (Z.of_nat i); arg_str msg] |}) error
       | None => []
       end in
  do_query fuel conn query_input None labels
  = Ret (None, conn2, failure (Z.of_nat (List.length pages))) /\
  forall rest query_output chunk_num accumulated,
    goes_on chunk_num query_output ->
    do_query_loop (S rest) conn1 query_input1 query_output labels chunk_num accumulated
    = Ret (None, conn2, failure chunk_num).
Proof.
  intros Hserves Hok Htokens Hanswer Hnz Hrows Hfuel failure.
  assert (forall chunk_num,
            do_query_error conn2 chunk_num status = (None, conn2, failure chunk_num))
    as Herror
    by (intros chunk_num; unfold do_query_error, failure;
        now destruct (rodsErrorName status)).
  split.
  - destruct (do_query_loop_prefix labels _ _ _ _ _ Hserves Hok Htokens
                (fuel - List.length pages)%nat None 0 [])
      as (query_output' & Hgo & Hrun); [lia|now left|].
    unfold do_query, json_array.
    replace fuel with (List.length pages + (fuel - List.length pages))%nat at 1 by lia.
    rewrite Hrun.
    destruct (fuel - List.length pages)%nat as [|rest] eqn:Hrest; [lia|].
    rewrite (do_query_loop_bad_status _ _ _ _ _ _ _ _ _ _ Hgo Hanswer Hnz Hrows).
    apply f_equal, Herror.
  - intros rest query_output chunk_num accumulated Hgo.
    rewrite (do_query_loop_bad_status _ _ _ _ _ _ _ _ _ _ Hgo Hanswer Hnz Hrows).
    apply f_equal, Herror.
Qed.

End ExecutorClaims.

(** C2, as stated, fails for a token that is not zero but negative: the
    loop goes on only while the token is positive, so the page that the
    catalog holds next is never fetched, and 1 record comes back where the
    two pages have 3 rows. *)
Lemma do_query_negative_token :
  serves [(0, Some page_neg); (0, Some page2)] empty_input [page_neg; page2] []
    (set_continueInx (set_continueInx empty_input (-1)) 0) /\
  out_continueInx page_neg <> 0 /\
  rowCnt page_neg + rowCnt page2 = 3 /\
  do_query 5 [(0, Some page_neg); (0, Some page2)] empty_input None ["collection"]
  = Ret (Some (json_array_of [json_object_of [("collection", json_string_of "/a")]]),
         [(0, Some page2)], []).
Proof.
  repeat split; try discriminate.
  repeat (eapply serves_page; [reflexivity|]). apply serves_done.
Qed.

(** ** Paths *)

Lemma is_sep_true (c : ascii) : is_sep c = true <-> c = sep.
Proof. apply Ascii.eqb_eq. Qed.

Lemma span_skip (f : ascii -> bool) (l : list ascii) :
  l = span_while f l ++ skip_while f l.
Proof.
  induction l as [|c l IH]; [reflexivity|]. simpl.
  destruct (f c); [|reflexivity]. simpl. now rewrite <- IH.
Qed.

Lemma span_while_all (f : ascii -> bool) (l : list ascii) :
  Forall (fun c => f c = true) (span_while f l).
Proof.
  induction l as [|c l IH]; simpl; [constructor|].
  destruct (f c) eqn:Hc; constructor; assumption.
Qed.

Lemma skip_while_head (f : ascii -> bool) (l : list ascii) (c : ascii)
    (rest : list ascii) :
  skip_while f l = c :: rest -> f c = false.
Proof.
  induction l as [|d l IH]; simpl; [discriminate|].
  destruct (f d) eqn:Hd; [assumption|]. now intros [= <- _].
Qed.

Lemma span_while_head (f : ascii -> bool) (c : ascii) (l : list ascii) :
  f c = true -> span_while f (c :: l) <> [].
Proof. intros Hc. simpl. now rewrite Hc. Qed.

Lemma components_from_sep (cur a b : list ascii) :
  components_from cur (a ++ sep :: b) = components_from cur a ++ components b.
Proof.
  revert cur. induction a as [|c a IH]; intros cur; simpl; [reflexivity|].
  destruct (is_sep c); [|apply IH].
  now rewrite IH, app_assoc.
Qed.

Lemma components_from_seps (cur seps : list ascii) :
  Forall (fun c => is_sep c = true) seps ->
  components_from cur seps = emit cur.
Proof.
  intros Hseps. revert cur.
  induction Hseps as [|c seps Hc _ IH]; intros cur; simpl; [reflexivity|].
  rewrite Hc, IH. simpl. apply app_nil_r.
Qed.

Lemma components_from_name (cur name seps : list ascii) :
  Forall (fun c => not_sep c = true) name ->
  Forall (fun c => is_sep c = true) seps ->
  components_from cur (name ++ seps) = emit (cur ++ name).
Proof.
  intros Hname Hseps. revert cur.
  induction Hname as [|c name Hc _ IH]; intros cur; simpl.
  - rewrite app_nil_r. now apply components_from_seps.
  - unfold not_sep in Hc. apply negb_true_iff in Hc. rewrite Hc.
    now rewrite IH, <- app_assoc.
Qed.

Lemma components_skip (seps rest : list ascii) :
  Forall (fun c => is_sep c = true) seps ->
  components (seps ++ rest) = components rest.
Proof.
  induction 1 as [|c seps Hc _ IH]; [reflexivity|].
  unfold components in *. simpl. now rewrite Hc.
Qed.

Lemma components_name (name tail : list ascii) :
  name <> [] ->
  Forall (fun c => not_sep c = true) name ->
  Forall (fun c => is_sep c = true) tail ->
  components (name ++ tail) = [name].
Proof.
  intros Hne Hname Htail. unfold components.
  rewrite components_from_name by assumption. simpl. now destruct name.
Qed.

Lemma leading_seps_length (run : list ascii) :
  leading_seps run
  = if decide (List.length run = 2%nat) then [sep; sep] else [sep].
Proof. now destruct run as [|a [|b [|c run]]]. Qed.

Lemma leading_seps_rev (run : list ascii) : leading_seps (rev run) = leading_seps run.
Proof. now rewrite !leading_seps_length, length_rev. Qed.

Lemma leading_seps_inv (run : list ascii) :
  exists rest,
    leading_seps run = sep :: rest /\ Forall (fun c => is_sep c = true) rest.
Proof.
  rewrite leading_seps_length. destruct (decide _); eexists; split; try reflexivity.
  - now repeat constructor.
  - constructor.
Qed.

(** The parts of a path that names something: what [dirname] keeps, the
    separators after it, the last component, the trailing separators. *)
Lemma split_path (path : list ascii) :
  (exists c, c ∈ path /\ c <> sep) ->
  exists dir seps name tail,
    path = dir ++ seps ++ name ++ tail /\
    Forall (fun c => is_sep c = true) seps /\
    Forall (fun c => is_sep c = true) tail /\
    name <> [] /\
    Forall (fun c => not_sep c = true) name /\
    basename_chars path = name /\
    ((dir = [] /\ seps = [] /\ dirname_chars path = ["."%char]) \/
     (dir = [] /\ seps <> [] /\ dirname_chars path = leading_seps seps) \/
     (dir <> [] /\ seps <> [] /\ dirname_chars path = dir)).
Proof.
  intros (c & Hin & Hc).
  pose proof (span_skip is_sep (rev path)) as Htail.
  pose proof (span_while_all is_sep (rev path)) as Htail_all.
  destruct (skip_while is_sep (rev path)) as [|c1 r1] eqn:Hr1.
  { exfalso. rewrite app_nil_r in Htail. rewrite <- Htail in Htail_all.
    apply Hc, is_sep_true.
    rewrite List.Forall_forall in Htail_all. apply Htail_all.
    apply (proj1 (in_rev path c)). now apply list_elem_of_In. }
  pose proof (skip_while_head _ _ _ _ Hr1) as Hc1.
  pose proof (span_skip not_sep (c1 :: r1)) as Hname.
  pose proof (span_while_all not_sep (c1 :: r1)) as Hname_all.
  assert (span_while not_sep (c1 :: r1) <> []) as Hname_ne
    by (apply span_while_head; unfold not_sep; now rewrite Hc1).
  pose proof (span_skip is_sep (skip_while not_sep (c1 :: r1))) as Hseps.
  pose proof (span_while_all is_sep (skip_while not_sep (c1 :: r1))) as Hseps_all.
  exists (rev (skip_while is_sep (skip_while not_sep (c1 :: r1)))),
         (rev (span_while is_sep (skip_while not_sep (c1 :: r1)))),
         (rev (span_while not_sep (c1 :: r1))),
         (rev (span_while is_sep (rev path))).
  assert (path <> []) as Hpath by (intros ->; inversion Hin).
  split; [|split; [|split; [|split; [|split; [|split]]]]].
  - rewrite <- (rev_involutive path) at 1. rewrite Htail at 1.
    rewrite Hname at 1. rewrite Hseps at 1.
    rewrite !rev_app_distr, <- !app_assoc. reflexivity.
  - now apply Forall_rev.
  - now apply Forall_rev.
  - intros Hnil. apply Hname_ne. apply (f_equal (@rev ascii)) in Hnil.
    now rewrite rev_involutive in Hnil.
  - now apply Forall_rev.
  - unfold basename_chars. destruct path; [contradiction|]. now rewrite Hr1.
  - unfold dirname_chars. destruct path as [|p0 path]; [contradiction|]. rewrite Hr1.
    destruct (skip_while not_sep (c1 :: r1)) as [|c2 r2] eqn:Hr2.
    { left. simpl. auto. }
    pose proof (skip_while_head _ _ _ _ Hr2) as Hc2.
    unfold not_sep in Hc2. apply negb_false_iff in Hc2.
    assert (rev (span_while is_sep (c2 :: r2)) <> []) as Hseps_ne.
    { simpl. rewrite Hc2. simpl. intros Hnil.
      apply app_eq_nil in Hnil as [_ Hnil]. discriminate. }
    destruct (skip_while is_sep (c2 :: r2)) as [|c3 r3] eqn:Hr3.
    { right. left. rewrite app_nil_r in Hseps.
      rewrite leading_seps_rev, <- Hseps.
      split; [reflexivity|split; [|reflexivity]].
      simpl. intros Hnil. apply app_eq_nil in Hnil as [_ Hnil]. discriminate. }
    right. right. split; [|split; [assumption|reflexivity]].
    simpl. intros Hnil. apply app_eq_nil in Hnil as [_ Hnil]. discriminate.
Qed.

Lemma chars_app (a b : string) : chars (a +:+ b) = chars a ++ chars b.
Proof. unfold chars. induction a as [|c a IH]; simpl; [reflexivity|now rewrite IH]. Qed.

Lemma chars_text (l : list ascii) : chars (text l) = l.
Proof. apply list_ascii_of_string_of_list_ascii. Qed.

Lemma is_absolute_app (a b : list ascii) :
  a <> [] -> is_absolute (a ++ b) = is_absolute a.
Proof. now destruct a. Qed.

(** Parent, separator and leaf put together again name the same place. *)
Lemma joined_path (path : list ascii) :
  (exists c, c ∈ path /\ c <> sep) ->
  is_absolute (dirname_chars path ++ sep :: basename_chars path) = is_absolute path /\
  filter (fun comp => is_dot comp = false)
    (components (dirname_chars path ++ sep :: basename_chars path))
  = filter (fun comp => is_dot comp = false) (components path).
Proof.
  intros Hnames.
  destruct (split_path path Hnames)
    as (dir & seps & name & tail & Hpath & Hseps & Htail & Hne & Hname & Hbase & Hdir).
  rewrite Hbase. unfold components at 1. rewrite components_from_sep.
  assert (components name = [name]) as Hcomp.
  { rewrite <- (app_nil_r name) at 1. now apply components_name. }
  assert (is_absolute (name ++ tail) = false) as Hrel.
  { destruct name as [|c name]; [contradiction|].
    apply Forall_cons in Hname as [Hc _]. simpl.
    unfold not_sep in Hc. now apply negb_true_iff in Hc. }
  rewrite Hcomp.
  destruct Hdir as [(-> & -> & ->)|[(-> & Hseps_ne & ->)|(Hdir_ne & Hseps_ne & ->)]].
  - simpl in Hpath. subst path. rewrite components_name by assumption.
    split; [now rewrite Hrel|reflexivity].
  - simpl in Hpath. subst path. rewrite components_skip by assumption.
    rewrite components_name by assumption.
    destruct (leading_seps_inv seps) as (rest & -> & Hrest).
    rewrite (components_from_seps [] (sep :: rest)) by now constructor.
    destruct seps as [|c seps]; [contradiction|].
    apply Forall_cons in Hseps as [Hc _]. simpl.
    split; [now rewrite Hc|reflexivity].
  - destruct seps as [|c seps]; [contradiction|].
    apply Forall_cons in Hseps as [Hc Hseps]. apply is_sep_true in Hc as ->.
    subst path. rewrite !is_absolute_app by assumption.
    unfold components. simpl ((sep :: seps) ++ _).
    rewrite components_from_sep, components_skip by assumption.
    rewrite components_name by assumption.
    split; reflexivity.
Qed.

(** *** Paths and UTF-8 *)

(** A byte below [0x80] stands alone: the text is valid when what comes
    before it and what comes after it are. *)
Lemma utf8_check_bytes_ascii (pending : option (Z * nat * Z)) (a : list ascii)
    (c : ascii) (b : list ascii) :
  byte_of c < 0x80 ->
  utf8_check_bytes pending (a ++ c :: b)
  = utf8_check_bytes pending a && utf8_check_bytes None b.
Proof.
  intros Hc. revert pending.
  induction a as [|d a IH]; intros pending.
  - cbn [app utf8_check_bytes]. destruct pending as [[[size more] value]|].
    + assert ((byte_of c <? 0x80) = true) as -> by lia. reflexivity.
    + unfold utf8_check_first.
      assert ((byte_of c <? 0x80) = true) as -> by lia. reflexivity.
  - cbn [app utf8_check_bytes]. destruct pending as [[[size more] value]|].
    + destruct ((byte_of d <? 0x80) || (0xBF <? byte_of d)); [reflexivity|].
      destruct more as [|[|more]]; [reflexivity| |apply IH].
      destruct (utf8_value_ok _ _); [apply IH|reflexivity].
    + destruct (utf8_check_first (byte_of d) =? 0); [reflexivity|].
      destruct (utf8_check_first (byte_of d) =? 1); apply IH.
Qed.

Lemma sep_ascii (c : ascii) : is_sep c = true -> byte_of c < 0x80.
Proof. intros Hc. apply is_sep_true in Hc as ->. reflexivity. Qed.

Lemma utf8_check_bytes_sep (c : ascii) (rest : list ascii) :
  is_sep c = true ->
  utf8_check_bytes None (c :: rest) = utf8_check_bytes None rest.
Proof. intros Hc. now apply (utf8_check_bytes_ascii None [] c rest), sep_ascii. Qed.

Lemma utf8_check_bytes_seps (seps : list ascii) :
  Forall (fun c => is_sep c = true) seps -> utf8_check_bytes None seps = true.
Proof.
  induction 1 as [|c seps Hc _ IH]; [reflexivity|].
  now rewrite utf8_check_bytes_sep.
Qed.

Lemma utf8_check_bytes_skip (seps rest : list ascii) :
  Forall (fun c => is_sep c = true) seps ->
  utf8_check_bytes None (seps ++ rest) = utf8_check_bytes None rest.
Proof.
  induction 1 as [|c seps Hc _ IH]; [reflexivity|].
  cbn [app]. now rewrite utf8_check_bytes_sep.
Qed.

Lemma utf8_check_bytes_tail (pending : option (Z * nat * Z)) (name tail : list ascii) :
  Forall (fun c => is_sep c = true) tail ->
  utf8_check_bytes pending (name ++ tail) = utf8_check_bytes pending name.
Proof.
  intros Htail. destruct Htail as [|c tail Hc Htail]; [now rewrite app_nil_r|].
  rewrite utf8_check_bytes_ascii by now apply sep_ascii.
  rewrite utf8_check_bytes_seps by assumption. apply andb_true_r.
Qed.

Lemma utf8_check_leading_seps (run : list ascii) :
  utf8_check_bytes None (leading_seps run) = true.
Proof. rewrite leading_seps_length. now destruct (decide _). Qed.

(** A path names something, or it is made of separators only. *)
Lemma names_entry_dec (path : list ascii) :
  (exists c, c ∈ path /\ c <> sep) \/ Forall (fun c => is_sep c = true) path.
Proof.
  induction path as [|c path [IH|IH]].
  - right. constructor.
  - left. destruct IH as (d & Hin & Hd). exists d. split; [now right|assumption].
  - destruct (is_sep c) eqn:Hc; [right; now constructor|].
    left. exists c. split; [now left|]. intros ->. discriminate.
Qed.

Lemma separators_only (path : list ascii) :
  Forall (fun c => is_sep c = true) path ->
  utf8_check_bytes None (dirname_chars path) = true /\
  utf8_check_bytes None (basename_chars path) = true.
Proof.
  intros Hseps. destruct path as [|c path]; [now split|].
  assert (skip_while is_sep (rev (c :: path)) = []) as Hskip.
  { apply Forall_rev in Hseps. revert Hseps.
    generalize (rev (c :: path)). intros l.
    induction 1 as [|d l Hd _ IH]; [reflexivity|]. simpl. now rewrite Hd. }
  unfold dirname_chars, basename_chars. rewrite Hskip.
  split; [apply utf8_check_leading_seps|reflexivity].
Qed.

(** A path is valid UTF-8 exactly when its parent and its leaf are: both
    are cut at separators, which are bytes below [0x80]. *)
Lemma utf8_check_path (path : string) :
  utf8_check_string path
  = utf8_check_string (dirname path) && utf8_check_string (basename path).
Proof.
  unfold utf8_check_string, dirname, basename.
  fold (chars path). fold (chars (text (dirname_chars (chars path)))).
  fold (chars (text (basename_chars (chars path)))). rewrite !chars_text.
  destruct (names_entry_dec (chars path)) as [Hnames|Hseps].
  - destruct (split_path (chars path) Hnames)
      as (dir & seps & name & tail & Hpath & Hseps & Htail & _ & _ & -> & Hdir).
    destruct Hdir as [(-> & -> & ->)|[(-> & _ & ->)|(_ & Hseps_ne & ->)]];
      rewrite Hpath.
    + simpl. now apply utf8_check_bytes_tail.
    + rewrite utf8_check_leading_seps. cbn [app andb].
      rewrite utf8_check_bytes_skip by assumption.
      now apply utf8_check_bytes_tail.
    + destruct seps as [|c seps]; [contradiction|].
      apply Forall_cons in Hseps as [Hc Hseps].
      change ((c :: seps) ++ name ++ tail) with (c :: (seps ++ name ++ tail)).
      rewrite utf8_check_bytes_ascii by now apply sep_ascii.
      rewrite utf8_check_bytes_skip by assumption.
      now rewrite utf8_check_bytes_tail.
  - destruct (separators_only _ Hseps) as [-> ->].
    now apply utf8_check_bytes_seps.
Qed.

(** What [json_pack] makes of the two parts of a path. *)
Lemma data_object_path_to_json_spec (path : string) :
  data_object_path_to_json path
  = if utf8_check_string path
    then Some (json_object_of [("collection", json_string_of (dirname path));
                               ("data_object", json_string_of (basename path))])
    else None.
Proof.
  unfold data_object_path_to_json, json_pack. cbn [forallb fst snd].
  rewrite (utf8_check_path path).
  change (utf8_check_string "collection") with true.
  change (utf8_check_string "data_object") with true.
  cbn [andb]. rewrite andb_true_r.
  now destruct (utf8_check_string (dirname path) && utf8_check_string (basename path)).
Qed.

Lemma collection_path_to_json_spec (path : string) :
  collection_path_to_json path
  = if utf8_check_string path
    then Some (json_object_of [("collection", json_string_of path)])
    else None.
Proof.
  unfold collection_path_to_json, json_pack. cbn [forallb fst snd].
  change (utf8_check_string "collection") with true.
  cbn [andb]. rewrite andb_true_r.
  now destruct (utf8_check_string path).
Qed.

(** C9. For a path that names something (a data object is never the
    root), [data_object_path_to_json] reports a parent collection and a
    leaf name exactly when the path is valid UTF-8, the encoding of JSON
    texts, and these are [dirname] and [basename] of the path; parent,
    separator and leaf joined give the path again up to normalisation,
    and the leaf holds no separator. *)
Theorem data_object_path_decomposition (path : string) :
  names_entry path ->
  data_object_path_to_json path
  = (if utf8_check_string path
     then Some (json_object_of [("collection", json_string_of (dirname path));
                                ("data_object", json_string_of (basename path))])
     else None) /\
  normalize (dirname path +:+ "/" +:+ basename path) = normalize path /\
  sep ∉ chars (basename path).
Proof.
  intros Hnames. split; [apply data_object_path_to_json_spec|]. split.
  - unfold normalize, dirname, basename.
    rewrite !chars_app, !chars_text.
    destruct (joined_path (chars path) Hnames) as [Habs Hcomp].
    change (chars "/" ++ basename_chars (chars path))
      with (sep :: basename_chars (chars path)).
    now rewrite Habs, Hcomp.
  - unfold basename. rewrite chars_text.
    destruct (split_path (chars path) Hnames)
      as (dir & seps & name & tail & _ & _ & _ & _ & Hname & -> & _).
    intros Hin. rewrite List.Forall_forall in Hname.
    apply list_elem_of_In in Hin. now specialize (Hname _ Hin).
Qed.

(** ** Searching *)

Lemma records_of_keys (labels : list string) (n : Z) (pages : list genQueryOut_t) :
  Forall (fun page => page_ok labels page = true /\ attriCnt page = n) pages ->
  Forall (fun label => utf8_check_string label = true) (take (Z.to_nat n) labels) ->
  NoDup (take (Z.to_nat n) labels) ->
  Forall (fun record => keys record = take (Z.to_nat n) labels) (records_of labels pages).
Proof.
  intros Hpages Hvalid Hnodup. unfold records_of.
  induction Hpages as [|page pages [Hok Hn] _ IH]; simpl; [constructor|].
  apply Forall_app. split; [|assumption].
  unfold page_records. apply Forall_map, Forall_forall. intros row _.
  destruct (page_ok_inv _ _ Hok) as (_ & Hcols & _).
  rewrite row_record_distinct; [|lia|now rewrite Hn..].
  simpl. rewrite row_entries_keys by lia. now rewrite Hn.
Qed.

(** The two descriptors of a search for texts, and their conditions. *)
Lemma search_inputs_run {header : BatonHeader} (name val : string) :
  2 <= MAX_NUM_CONDITIONALS ->
  (exists query_input,
     col_search_input (Some name) (Some val) = Ret query_input /\
     conditions query_input
     = [(COL_META_COLL_ATTR_NAME, Some ("= '" +:+ name +:+ "'"));
        (COL_META_COLL_ATTR_VALUE, Some ("= '" +:+ val +:+ "'"))]) /\
  (exists query_input,
     obj_search_input (Some name) (Some val) = Ret query_input /\
     conditions query_input
     = [(COL_META_DATA_ATTR_NAME, Some ("= '" +:+ name +:+ "'"));
        (COL_META_DATA_ATTR_VALUE, Some ("= '" +:+ val +:+ "'"))]).
Proof.
  intros Hmax. unfold col_search_input, obj_search_input. split.
  - destruct (make_query_input_runs 10 1 [COL_COLL_NAME; COL_DATA_NAME]) as [q Hq];
      [simpl; lia|].
    destruct (make_query_input_fresh _ _ _ _ Hq) as (Hin & Hlen & Hnone & _); [lia|].
    rewrite Hq. cbn [bind]. unfold prepare_col_search.
    destruct (add_query_conds_spec q
                [{| column := COL_META_COLL_ATTR_NAME; operator := Some "=";
                    value := Some name |};
                 {| column := COL_META_COLL_ATTR_VALUE; operator := Some "=";
                    value := Some val |}])
      as (q' & Hrun & Hc & _); [exact Hin|repeat constructor; simpl; eauto|simpl; lia|].
    exists q'. split; [exact Hrun|]. rewrite Hc, Hnone. reflexivity.
  - destruct (make_query_input_runs 10 2 [COL_COLL_NAME; COL_DATA_NAME]) as [q Hq];
      [simpl; lia|].
    destruct (make_query_input_fresh _ _ _ _ Hq) as (Hin & Hlen & Hnone & _); [lia|].
    rewrite Hq. cbn [bind]. unfold prepare_obj_search.
    destruct (add_query_conds_spec q
                [{| column := COL_META_DATA_ATTR_NAME; operator := Some "=";
                    value := Some name |};
                 {| column := COL_META_DATA_ATTR_VALUE; operator := Some "=";
                    value := Some val |}])
      as (q' & Hrun & Hc & _); [exact Hin|repeat constructor; simpl; eauto|simpl; lia|].
    exists q'. split; [exact Hrun|]. rewrite Hc, Hnone. reflexivity.
Qed.

(** A catalog that has no rows says so at every call, and the loop of
    [do_query], which has fetched no chunk, asks again. *)
Lemma do_query_loop_no_rows (fuel : nat) (query_input : genQueryInp_t)
    (query_output : option genQueryOut_t) (labels : list string) (results : json_t) :
  do_query_loop fuel ([] : list response) query_input query_output labels 0 results
  = OutOfFuel.
Proof.
  revert query_output. induction fuel as [|fuel IH]; intros query_output;
    [reflexivity|].
  simpl. apply IH.
Qed.

(** C10. The claim holds of the specification, not of the code, by the
    defect of C1: a search that matches nothing is answered with
    [CAT_NO_ROWS_FOUND], on which the loop of [do_query] asks again
    without end. So [search_metadata] returns nothing, with any amount of
    fuel, when no collection carries the attribute and value, and also
    when collections do (here the two of [page2]) and no data object
    does. *)
Theorem search_metadata_no_match_spins {header : BatonHeader} (fuel : nat)
    (name val : string) :
  2 <= MAX_NUM_CONDITIONALS ->
  search_metadata fuel ([] : list response) (Some name) (Some val) = OutOfFuel /\
  search_metadata fuel [(0, Some page2)] (Some name) (Some val) = OutOfFuel.
Proof.
  intros Hmax.
  destruct (search_inputs_run name val Hmax) as [(q1 & Hcol & _) (q2 & Hobj & _)].
  unfold col_search_input, obj_search_input in Hcol, Hobj.
  unfold search_metadata. change (1 + 1) with 2.
  destruct (make_query_input 10 1 _) as [q1'| | |]; cbn [bind] in Hcol |- *;
    try discriminate.
  rewrite Hcol. cbn [bind]. split.
  - unfold do_query. now rewrite do_query_loop_no_rows.
  - destruct fuel as [|[|fuel]]; [reflexivity..|].
    rewrite (do_query_pages ["collection"; "data_object"] [(0, Some page2)] q1
               [page2] [] (set_continueInx q1 0));
      [|eapply serves_page; [reflexivity|apply serves_done]
       |repeat constructor|simpl; lia|simpl; lia].
    cbn [bind].
    destruct (make_query_input 10 2 _) as [q2'| | |]; cbn [bind] in Hobj |- *;
      try discriminate.
    rewrite Hobj. cbn [bind].
    unfold do_query. now rewrite do_query_loop_no_rows.
Qed.


(** ** Metadata updates *)

Section MutationClaims.
Context {header : BatonHeader} {rcComm_t : Type} {client : IrodsClient rcComm_t}.

(** C4. For an update of a data object or a collection, the argument
    vector that [map_mod_args] builds and [modify_metadata] submits has
    exactly 10 entries: the name of the operation, ["-d"] for a data
    object or ["-C"] for a collection, the path, the attribute, the
    value, the units, and four empty texts. *)
Theorem modify_metadata_arguments (conn : rcComm_t) (path : rodsPath_t)
    (o : metadata_op) (attribute val units : string) :
  objType path = DATA_OBJ_T \/ objType path = COLL_OBJ_T ->
  let type := match objType path with DATA_OBJ_T => "-d" | _ => "-C" end in
  let anon_args :=
    map_mod_args {| op := o; type_arg := Some type; rods_path := path;
                    attr_name := Some attribute; attr_value := Some val;
                    attr_units := Some units |} in
  arg_vector anon_args
  = [Some (match o with META_ADD => META_ADD_NAME | META_REM => META_REM_NAME end);
     Some type; Some (outPath path); Some attribute; Some val; Some units;
     Some ""; Some ""; Some ""; Some ""] /\
  List.length (arg_vector anon_args) = 10%nat /\
  (modify_metadata conn path o (Some attribute) (Some val) (Some units)).1
  = rcModAVUMetadata conn anon_args.
Proof.
  intros Hkind type anon_args. split; [|split].
  - unfold anon_args, arg_vector, map_mod_args. simpl. now destruct o.
  - reflexivity.
  - unfold modify_metadata. subst anon_args type.
    destruct Hkind as [-> | ->];
      destruct (rcModAVUMetadata conn _) as [status conn'];
      destruct (status <? 0); [destruct (rodsErrorName status)| |
                               destruct (rodsErrorName status)|]; reflexivity.
Qed.

End MutationClaims.

(** ** The statements at work *)

Lemma do_query_concatenates_pages_witness :
  do_query 3 [(0, Some page1); (0, Some page2)] empty_input None ["collection"]
  = Ret (Some (json_array_of
                 (List.concat (map (page_records ["collection"]) [page1; page2]))),
         [], []) /\
  Z.of_nat (List.length (List.concat (map (page_records ["collection"]) [page1; page2])))
  = foldr (fun page total => rowCnt page + total) 0 [page1; page2].
Proof.
  apply (do_query_concatenates_pages ["collection"]
           [(0, Some page1); (0, Some page2)] [] empty_input
           (set_continueInx (set_continueInx empty_input 1) 0) [page1; page2] 3).
  - repeat (eapply serves_page; [reflexivity|]). apply serves_done.
  - repeat constructor.
  - simpl. lia.
  - simpl. lia.
Defined.

Lemma do_query_fails_whole_witness :
  do_query 3 [(0, Some page1); (-1, None)] empty_input None ["collection"]
  = Ret (None, [],
         [{| level := ERROR;
             format := "Failed get query result: in chunk %d error %d %s %s";
             args := [arg_int 1; arg_int (-1); arg_str ""; arg_str ""] |}]).
Proof.
  etransitivity.
  - refine (proj1 (do_query_fails_whole ["collection"] [(0, Some page1); (-1, None)]
                     [(-1, None)] [] empty_input (set_continueInx empty_input 1)
                     [page1] (-1) None 3 _ _ _ _ _ _ _)).
    + repeat (eapply serves_page; [reflexivity|]). apply serves_done.
    + repeat constructor.
    + repeat constructor.
    + reflexivity.
    + discriminate.
    + discriminate.
    + simpl. lia.
  - reflexivity.
Defined.

Lemma modify_metadata_arguments_witness :
  arg_vector
    (@map_mod_args sample_header
       {| op := META_ADD; type_arg := Some "-d"; rods_path := sample_path;
          attr_name := Some "color"; attr_value := Some "red";
          attr_units := Some "" |})
  = [Some "add"; Some "-d"; Some "/zone/home/f.txt"; Some "color"; Some "red";
     Some ""; Some ""; Some ""; Some ""; Some ""].
Proof.
  apply (@modify_metadata_arguments sample_header (list response) scripted_client
           [] sample_path META_ADD "color" "red" "").
  left. reflexivity.
Defined.

Lemma prepare_obj_list_conditions_witness :
  exists query_input',
    @prepare_obj_list fresh_input sample_path None = Ret query_input' /\
    vp_len (sqlCondInp query_input') = 2 /\
    conditions query_input'
    = [(COL_COLL_NAME, Some "= '/zone/home'"); (COL_DATA_NAME, Some "= 'f.txt'")].
Proof.
  apply (@prepare_obj_list_conditions sample_header 10 3
           [COL_META_DATA_ATTR_NAME; COL_META_DATA_ATTR_VALUE; COL_META_DATA_ATTR_UNITS]
           fresh_input sample_path None).
  - reflexivity.
  - simpl. lia.
Defined.

Lemma add_query_conds_within_ceiling_witness :
  exists query_input',
    add_query_conds fresh_input 2
      [{| column := COL_COLL_NAME; operator := Some "="; value := Some "/zone/home" |};
       {| column := COL_DATA_NAME; operator := Some "="; value := Some "f.txt" |}]
    = Ret query_input' /\
    conditions query_input'
    = [(COL_COLL_NAME, Some "= '/zone/home'"); (COL_DATA_NAME, Some "= 'f.txt'")] /\
    Z.of_nat (List.length (conditions query_input')) <= 20 /\
    @within_ceiling sample_header query_input'.
Proof.
  apply (@add_query_conds_within_ceiling sample_header fresh_input
           [{| column := COL_COLL_NAME; operator := Some "="; value := Some "/zone/home" |};
            {| column := COL_DATA_NAME; operator := Some "="; value := Some "f.txt" |}]).
  - repeat split; simpl; lia.
  - repeat constructor; simpl; eauto.
  - simpl. lia.
Defined.

Lemma add_query_conds_clause_witness :
  exists query_input',
    add_query_conds fresh_input 1
      [{| column := COL_DATA_NAME; operator := Some "="; value := Some "O'Brien" |}]
    = Ret query_input' /\
    conditions query_input' = [(COL_DATA_NAME, Some "= 'O'Brien'")].
Proof.
  apply (@add_query_conds_clause sample_header fresh_input COL_DATA_NAME "=" "O'Brien").
  - repeat split; simpl; lia.
  - simpl. lia.
Defined.

Lemma make_json_objects_labelled_witness :
  make_json_objects page3 ["collection"; "data_object"]
  = Ret (Some (json_array_of
                 [json_object_of [("collection", json_string_of "/d");
                                  ("data_object", json_string_of "f")]])) /\
  (forall row,
     keys (json_object_of (row_entries ["collection"; "data_object"] page3 row))
     = ["collection"; "data_object"]) /\
  (attriCnt page3 = 2 ->
   forall row,
     keys (json_object_of (row_entries ["collection"; "data_object"] page3 row))
     = ["collection"; "data_object"]).
Proof.
  apply (make_json_objects_labelled ["collection"; "data_object"] page3).
  - reflexivity.
  - repeat constructor.
  - simpl. apply NoDup_cons. split; [|apply NoDup_singleton].
    intros Hin. apply list_elem_of_singleton in Hin. discriminate.
Defined.

Lemma data_object_path_decomposition_witness :
  data_object_path_to_json "/zone/home/f.txt"
  = Some (json_object_of [("collection", json_string_of "/zone/home");
                          ("data_object", json_string_of "f.txt")]) /\
  normalize ("/zone/home" +:+ "/" +:+ "f.txt") = normalize "/zone/home/f.txt" /\
  sep ∉ chars "f.txt".
Proof.
  apply (data_object_path_decomposition "/zone/home/f.txt").
  exists "z"%char. split; [|discriminate].
  simpl. apply list_elem_of_further, list_elem_of_here.
Defined.

Lemma search_metadata_no_match_spins_witness :
  @search_metadata sample_header _ scripted_client 5 [] (Some "color") (Some "red")
  = OutOfFuel /\
  @search_metadata sample_header _ scripted_client 5 [(0, Some page2)]
    (Some "color") (Some "red")
  = OutOfFuel.
Proof.
  apply (@search_metadata_no_match_spins sample_header 5 "color" "red").
  simpl. lia.
Defined.

(** * Further properties *)

(** ** Loops, continued *)

Lemma for_loop_add {T : Type} (n m : nat) (i : Z) (body : Z -> T -> outcome T) (s : T) :
  for_loop (n + m) i body s
  = (t <- for_loop n i body s ;; for_loop m (i + Z.of_nat n) body t).
Proof.
  revert i s. induction n as [|n IH]; intros i s.
  - simpl. now replace (i + Z.of_nat 0) with i by lia.
  - simpl. destruct (body i s) as [t| | |]; simpl; try reflexivity.
    rewrite IH. now replace (i + 1 + Z.of_nat n) with (i + Z.of_nat (S n)) by lia.
Qed.

Lemma for_loop_shift {T : Type} (n : nat) (i d : Z) (body : Z -> T -> outcome T) (s : T) :
  for_loop n (i + d) body s = for_loop n i (fun k => body (k + d)) s.
Proof.
  revert i s. induction n as [|n IH]; intros i s; [reflexivity|].
  simpl. destruct (body (i + d) s) as [t| | |]; simpl; try reflexivity.
  rewrite <- IH. f_equal. lia.
Qed.

(** What every pass keeps, the loop keeps. *)
Lemma for_loop_preserves {T : Type} (P : T -> Prop) (n : nat) (i : Z)
    (body : Z -> T -> outcome T) (s s' : T) :
  (forall k t t', P t -> body k t = Ret t' -> P t') ->
  P s -> for_loop n i body s = Ret s' -> P s'.
Proof.
  intros Hbody. revert i s. induction n as [|n IH]; intros i s Hs Hrun; simpl in Hrun.
  - now injection Hrun as <-.
  - destruct (body i s) as [t| | |] eqn:Ht; simpl in Hrun; try discriminate.
    eapply IH; [|exact Hrun]. eapply Hbody; eassumption.
Qed.

(** A pass that is undefined in whatever state it is reached makes the
    loop undefined, when no pass before it runs out of fuel or aborts. *)
Lemma for_loop_undefined {T : Type} (n : nat) (i k : Z) (body : Z -> T -> outcome T)
    (s : T) :
  (forall j t, i <= j < k -> body j t <> OutOfFuel /\ body j t <> Aborted) ->
  i <= k < i + Z.of_nat n ->
  (forall t, body k t = Undefined) ->
  for_loop n i body s = Undefined.
Proof.
  revert i s. induction n as [|n IH]; intros i s Hplain Hk Hbad; [lia|].
  simpl. destruct (decide (i = k)) as [->|Hne].
  - now rewrite Hbad.
  - destruct (Hplain i s) as [Hfuel Habort]; [lia|].
    destruct (body i s) as [t| | |] eqn:Ht; simpl; try reflexivity; try contradiction.
    apply IH; [|lia|assumption].
    intros j u Hj. apply Hplain. lia.
Qed.

(** ** Descriptors, continued *)

Section DescriptorFacts.
Context {header : BatonHeader}.

(** X1. [make_query_input] copies the first [num_columns] columns, in
    order, and leaves a descriptor without conditions and with the token
    0. *)
Theorem make_query_input_selects (max_rows num_columns : Z) (columns : list Z) :
  0 < num_columns <= Z.of_nat (List.length columns) ->
  make_query_input max_rows num_columns columns
  = Ret {| maxRows := max_rows;
           continueInx := 0;
           condInput_len := 0;
           selectInp := {| iv_len := num_columns;
                           iv_inx := take (Z.to_nat num_columns) columns;
                           iv_value := replicate (Z.to_nat num_columns) 0 |};
           sqlCondInp := {| vp_len := 0;
                            vp_inx := replicate (Z.to_nat MAX_NUM_CONDITIONALS) 0;
                            vp_value := replicate (Z.to_nat MAX_NUM_CONDITIONALS) None |} |}.
Proof.
  intros Hn. unfold make_query_input, for_range, calloc.
  destruct (for_loop_inv
              (fun k (cols : list Z) =>
                 cols = take (Z.to_nat k) columns
                        ++ replicate (Z.to_nat (num_columns - k)) 0)
              (Z.to_nat (num_columns - 0)) 0
              (fun i cols => c <- array_get columns i ;; array_set cols i c)
              (replicate (Z.to_nat num_columns) 0)) as (cols & -> & Hcols).
  - simpl. now rewrite Z.sub_0_r.
  - intros k t Hk ->. unfold array_get. rewrite decide_True by lia.
    destruct (lookup_lt_is_Some_2 columns (Z.to_nat k)) as [c Hc]; [lia|].
    rewrite Hc. simpl. unfold array_set.
    rewrite decide_True
      by (rewrite length_app, length_take, length_replicate; lia).
    eexists. split; [reflexivity|].
    rewrite insert_app_r_alt by (rewrite length_take; lia).
    rewrite length_take.
    replace (Z.to_nat k - Z.to_nat k `min` List.length columns)%nat with 0%nat by lia.
    replace (Z.to_nat (num_columns - k)) with (S (Z.to_nat (num_columns - (k + 1))))
      by lia.
    replace (Z.to_nat (k + 1)) with (S (Z.to_nat k)) by lia.
    rewrite (take_S_r _ _ c) by assumption.
    simpl. now rewrite <- app_assoc.
  - replace (0 + Z.of_nat (Z.to_nat (num_columns - 0))) with num_columns in Hcols by lia.
    rewrite Z.sub_diag in Hcols. simpl in Hcols. rewrite app_nil_r in Hcols.
    subst cols. simpl. unfold array_set.
    rewrite decide_True by (rewrite length_replicate; lia). simpl.
    rewrite list_insert_id by (apply lookup_replicate_2; lia).
    reflexivity.
Qed.

(** X2. With no column to select, or with more columns asked for than the
    caller's array holds, [make_query_input] reads or writes outside an
    array. *)
Theorem make_query_input_out_of_bounds (max_rows num_columns : Z) (columns : list Z) :
  num_columns <= 0 \/ Z.of_nat (List.length columns) < num_columns ->
  make_query_input max_rows num_columns columns = Undefined.
Proof.
  intros [Hn|Hn]; unfold make_query_input, for_range, calloc.
  - replace (Z.to_nat (num_columns - 0)) with 0%nat by lia.
    replace (Z.to_nat num_columns) with 0%nat by lia. reflexivity.
  - rewrite (for_loop_undefined _ _ (Z.of_nat (List.length columns)));
      [reflexivity| |lia|].
    + intros j t _. unfold array_get, array_set.
      destruct (decide (0 <= j)); [|split; discriminate].
      destruct (columns !! Z.to_nat j); [|split; discriminate]. simpl.
      destruct (decide _); split; discriminate.
    + intros t. unfold array_get. rewrite decide_True by lia.
      now rewrite lookup_ge_None_2 by lia.
Qed.

End DescriptorFacts.

(** What a builder leaves alone in a descriptor. *)
Lemma add_query_conds_keeps (query_input query_input' : genQueryInp_t)
    (num_conds : Z) (conds : list query_cond) :
  add_query_conds query_input num_conds conds = Ret query_input' ->
  maxRows query_input' = maxRows query_input /\
  continueInx query_input' = continueInx query_input /\
  condInput_len query_input' = condInput_len query_input /\
  selectInp query_input' = selectInp query_input.
Proof.
  unfold add_query_conds, for_range.
  apply (for_loop_preserves
           (fun q => maxRows q = maxRows query_input /\
                     continueInx q = continueInx query_input /\
                     condInput_len q = condInput_len query_input /\
                     selectInp q = selectInp query_input)); [|auto].
  intros k t t' Ht Hstep. unfold array_get in Hstep.
  destruct (decide (0 <= k)); [|discriminate].
  destruct (conds !! Z.to_nat k) as [c|]; [|discriminate]. simpl in Hstep.
  unfold add_query_cond in Hstep.
  destruct (deref (operator c)); simpl in Hstep; try discriminate.
  destruct (deref (value c)); simpl in Hstep; try discriminate.
  destruct (array_set (vp_inx _) _ _); simpl in Hstep; try discriminate.
  destruct (array_set (vp_value _) _ _); simpl in Hstep; try discriminate.
  injection Hstep as <-. exact Ht.
Qed.

(** X3. The builders of conditions touch nothing but the conditions: after
    [add_query_conds] and after each of the four [prepare_*] functions,
    the row limit, the token and the selected columns are those of the
    descriptor given. *)
Theorem builders_keep_the_rest (query_input query_input' : genQueryInp_t)
    (num_conds : Z) (conds : list query_cond) (path : rodsPath_t)
    (name val : option string) :
  add_query_conds query_input num_conds conds = Ret query_input' \/
  prepare_obj_list query_input path name = Ret query_input' \/
  prepare_col_list query_input path name = Ret query_input' \/
  prepare_obj_search query_input name val = Ret query_input' \/
  prepare_col_search query_input name val = Ret query_input' ->
  maxRows query_input' = maxRows query_input /\
  continueInx query_input' = continueInx query_input /\
  selectInp query_input' = selectInp query_input.
Proof.
  assert (forall n l, add_query_conds query_input n l = Ret query_input' ->
            maxRows query_input' = maxRows query_input /\
            continueInx query_input' = continueInx query_input /\
            selectInp query_input' = selectInp query_input) as Hkeeps.
  { intros n l Hrun.
    destruct (add_query_conds_keeps _ _ _ _ Hrun) as (Hrows & Htoken & _ & Hselect).
    auto. }
  unfold prepare_obj_list, prepare_col_list, prepare_obj_search, prepare_col_search.
  intros [Hrun|[Hrun|[Hrun|[Hrun|Hrun]]]]; try destruct name;
    eapply Hkeeps; exact Hrun.
Qed.

(** X4. Adding two lists of conditions one after the other is adding
    their concatenation at once, also when one of the additions is
    undefined. *)
Theorem add_query_conds_app (query_input : genQueryInp_t) (first second : list query_cond) :
  add_query_conds query_input (Z.of_nat (List.length (first ++ second))) (first ++ second)
  = (query_input' <- add_query_conds query_input (Z.of_nat (List.length first)) first ;;
     add_query_conds query_input' (Z.of_nat (List.length second)) second).
Proof.
  unfold add_query_conds, for_range.
  replace (Z.to_nat (Z.of_nat (List.length (first ++ second)) - 0))
    with (List.length first + List.length second)%nat by (rewrite length_app; lia).
  rewrite !Z.sub_0_r, !Nat2Z.id, for_loop_add.
  rewrite (for_loop_ext (List.length first) 0 _
             (fun i q => c <- array_get first i ;; add_query_cond c q)).
  - destruct (for_loop (List.length first) 0 _ query_input) as [q| | |]; simpl;
      try reflexivity.
    rewrite (for_loop_shift _ 0 (Z.of_nat (List.length first))).
    apply for_loop_ext. intros k t Hk. unfold array_get.
    rewrite !decide_True by lia. rewrite lookup_app_r by lia.
    now replace (Z.to_nat (k + Z.of_nat (List.length first)) - List.length first)%nat
      with (Z.to_nat k) by lia.
  - intros k t Hk. unfold array_get. rewrite !decide_True by lia.
    now rewrite lookup_app_l by lia.
Qed.

Section BuilderFacts.
Context {header : BatonHeader}.

(** X5. On a descriptor with room for two conditions, the two search
    builders add exactly two: the attribute name and the attribute value,
    each compared by equality, on the columns of data objects and of
    collections respectively. *)
Theorem prepare_search_conditions (query_input : genQueryInp_t) (name val : string) :
  within_ceiling query_input ->
  vp_len (sqlCondInp query_input) + 2 <= MAX_NUM_CONDITIONALS ->
  (exists query_input',
     prepare_obj_search query_input (Some name) (Some val) = Ret query_input' /\
     conditions query_input'
     = conditions query_input
       ++ [(COL_META_DATA_ATTR_NAME, Some ("= '" +:+ name +:+ "'"));
           (COL_META_DATA_ATTR_VALUE, Some ("= '" +:+ val +:+ "'"))]) /\
  (exists query_input',
     prepare_col_search query_input (Some name) (Some val) = Ret query_input' /\
     conditions query_input'
     = conditions query_input
       ++ [(COL_META_COLL_ATTR_NAME, Some ("= '" +:+ name +:+ "'"));
           (COL_META_COLL_ATTR_VALUE, Some ("= '" +:+ val +:+ "'"))]).
Proof.
  intros Hin Hroom. split.
  - destruct (add_query_conds_spec query_input
                [{| column := COL_META_DATA_ATTR_NAME; operator := Some "=";
                    value := Some name |};
                 {| column := COL_META_DATA_ATTR_VALUE; operator := Some "=";
                    value := Some val |}])
      as (q & Hrun & Hc & _); [assumption| |simpl; lia|].
    + repeat constructor; simpl; eauto.
    + exists q. split; [exact Hrun|exact Hc].
  - destruct (add_query_conds_spec query_input
                [{| column := COL_META_COLL_ATTR_NAME; operator := Some "=";
                    value := Some name |};
                 {| column := COL_META_COLL_ATTR_VALUE; operator := Some "=";
                    value := Some val |}])
      as (q & Hrun & Hc & _); [assumption| |simpl; lia|].
    + repeat constructor; simpl; eauto.
    + exists q. split; [exact Hrun|exact Hc].
Qed.

(** A condition without value stops the loop of [add_query_conds] at its
    [strlen]. *)
Lemma add_query_cond_null (c : query_cond) (query_input : genQueryInp_t) :
  value c = None -> add_query_cond c query_input = Undefined.
Proof. intros Hnull. unfold add_query_cond. rewrite Hnull. now destruct (operator c). Qed.

Lemma add_query_cond_no_fuel (c : query_cond) (query_input : genQueryInp_t) :
  add_query_cond c query_input <> OutOfFuel /\
  add_query_cond c query_input <> Aborted.
Proof.
  unfold add_query_cond, array_set.
  destruct (operator c), (value c); simpl; try (split; discriminate).
  repeat (destruct (decide _); simpl; try (split; discriminate)).
Qed.

Lemma add_query_conds_null (query_input : genQueryInp_t) (conds : list query_cond)
    (k : nat) (c : query_cond) :
  conds !! k = Some c -> value c = None ->
  add_query_conds query_input (Z.of_nat (List.length conds)) conds = Undefined.
Proof.
  intros Hc Hnull. unfold add_query_conds, for_range.
  apply lookup_lt_Some in Hc as Hk.
  apply (for_loop_undefined _ _ (Z.of_nat k)).
  - intros j t _. unfold array_get.
    destruct (decide (0 <= j)); [|split; discriminate].
    destruct (conds !! Z.to_nat j); [|split; discriminate]. simpl.
    apply add_query_cond_no_fuel.
  - lia.
  - intros t. unfold array_get. rewrite decide_True by lia.
    rewrite Nat2Z.id, Hc. simpl. now apply add_query_cond_null.
Qed.

(** X6. [prepare_col_list] adds one condition, on the path of the
    collection, when the attribute filter is [NULL], and a second one, on
    the attribute name, when it is not. *)
Theorem prepare_col_list_conditions (query_input : genQueryInp_t) (path : rodsPath_t)
    (filter : option string) :
  within_ceiling query_input ->
  vp_len (sqlCondInp query_input) + 2 <= MAX_NUM_CONDITIONALS ->
  exists query_input',
    prepare_col_list query_input path filter = Ret query_input' /\
    conditions query_input'
    = conditions query_input
      ++ (COL_COLL_NAME, Some ("= '" +:+ outPath path +:+ "'"))
         :: match filter with
            | None => []
            | Some a => [(COL_META_COLL_ATTR_NAME, Some ("= '" +:+ a +:+ "'"))]
            end.
Proof.
  intros Hin Hroom. unfold prepare_col_list. destruct filter as [a|].
  - destruct (add_query_conds_spec query_input
                [{| column := COL_COLL_NAME; operator := Some "=";
                    value := Some (outPath path) |};
                 {| column := COL_META_COLL_ATTR_NAME; operator := Some "=";
                    value := Some a |}])
      as (q & Hrun & Hc & _); [assumption| |simpl; lia|].
    + repeat constructor; simpl; eauto.
    + exists q. split; [exact Hrun|exact Hc].
  - destruct (add_query_conds_spec query_input
                [{| column := COL_COLL_NAME; operator := Some "=";
                    value := Some (outPath path) |}])
      as (q & Hrun & Hc & _); [assumption| |simpl; lia|].
    + repeat constructor; simpl; eauto.
    + exists q. split; [exact Hrun|exact Hc].
Qed.

End BuilderFacts.

Section SearchFacts.
Context {header : BatonHeader} {rcComm_t : Type} {client : IrodsClient rcComm_t}.

(** X7. [search_metadata] makes no test of its arguments: with a [NULL]
    attribute name or value, the [strlen] of [add_query_conds] reads
    through [NULL] before any query is sent. *)
Theorem search_metadata_null (fuel : nat) (conn : rcComm_t) (name val : option string) :
  name = None \/ val = None ->
  search_metadata fuel conn name val = Undefined.
Proof.
  intros Hnull. unfold search_metadata.
  destruct (make_query_input_runs 10 1 [COL_COLL_NAME; COL_DATA_NAME]) as [q ->];
    [simpl; lia|].
  cbn [bind]. unfold prepare_col_search.
  destruct Hnull as [-> | ->].
  - now rewrite (add_query_conds_null _
                   [{| column := COL_META_COLL_ATTR_NAME; operator := Some "=";
                       value := None |};
                    {| column := COL_META_COLL_ATTR_VALUE; operator := Some "=";
                       value := val |}] 0 _ eq_refl eq_refl).
  - now rewrite (add_query_conds_null _
                   [{| column := COL_META_COLL_ATTR_NAME; operator := Some "=";
                       value := name |};
                    {| column := COL_META_COLL_ATTR_VALUE; operator := Some "=";
                       value := None |}] 1 _ eq_refl eq_refl).
Qed.

End SearchFacts.

(** ** Result pages, continued *)

Lemma set_member_keys (members : list (string * json_t)) (key : string) (v : json_t) :
  (set_member members key v).*1
  = if decide (key ∈ members.*1) then members.*1 else members.*1 ++ [key].
Proof.
  induction members as [|[k w] members IH].
  - rewrite decide_False by (intros Hin; inversion Hin). reflexivity.
  - change (((k, w) :: members).*1) with (k :: members.*1).
    cbn [set_member]. destruct (String.eqb_spec k key) as [Heq|Hne].
    + subst k. rewrite decide_True by left. reflexivity.
    + change (((k, w) :: set_member members key v).*1)
        with (k :: (set_member members key v).*1).
      rewrite IH. destruct (decide (key ∈ members.*1)) as [Hin|Hin].
      * rewrite decide_True by now right. reflexivity.
      * rewrite decide_False; [reflexivity|].
        intros Hin'. apply elem_of_cons in Hin' as [->|Hin']; contradiction.
Qed.

(** Setting entries one after the other never leaves a key twice, and
    leaves out the keys that are refused. *)
Lemma foldl_set_member_keys (g : Z -> string * json_t) (l : list Z)
    (members : list (string * json_t)) :
  NoDup members.*1 ->
  exists members',
    foldl (fun jrow i => snd (json_object_set_new jrow (g i).1 (g i).2))
      (json_object_of members) l
    = json_object_of members' /\
    NoDup members'.*1 /\
    forall k, k ∈ members'.*1
              <-> k ∈ members.*1 \/
                  (k ∈ map (fun i => (g i).1) l /\ utf8_check_string k = true).
Proof.
  revert members. induction l as [|i l IH]; intros members Hnodup; cbn [foldl map].
  - exists members. split; [reflexivity|]. split; [assumption|].
    intros k. split; [tauto|]. intros [Hin|[Hin _]]; [assumption|inversion Hin].
  - destruct (utf8_check_string (g i).1) eqn:Hkey.
    + rewrite json_object_set_new_valid by assumption. cbn [snd].
      destruct (IH (set_member members (g i).1 (g i).2))
        as (members' & Hrun & Hnd & Hkeys).
      * rewrite set_member_keys. destruct (decide _) as [Hin|Hin]; [assumption|].
        apply NoDup_app. repeat split; [assumption| |apply NoDup_singleton].
        intros k Hk Hk'. apply list_elem_of_singleton in Hk' as ->. contradiction.
      * exists members'. split; [exact Hrun|]. split; [exact Hnd|].
        intros k. rewrite Hkeys, set_member_keys.
        destruct (decide _) as [Hin|Hin].
        -- rewrite elem_of_cons. split; [tauto|].
           intros [Hk|[[->|Hk] Hv]]; tauto.
        -- rewrite elem_of_app, list_elem_of_singleton, elem_of_cons.
           split; [|tauto].
           intros [[Hk| ->]|Hk]; [tauto| |tauto]. right. split; [now left|assumption].
    + rewrite json_object_set_new_refused by assumption. cbn [snd].
      destruct (IH members Hnodup) as (members' & Hrun & Hnd & Hkeys).
      exists members'. split; [exact Hrun|]. split; [exact Hnd|].
      intros k. rewrite Hkeys, elem_of_cons. split; [tauto|].
      intros [Hk|[[->|Hk] Hv]]; [tauto|congruence|tauto].
Qed.

(** X8. A page that can be serialized gives as many records as it has
    rows; whatever the labels, no record carries a label twice, and the
    labels of a record are those of the columns of the page that are
    valid UTF-8: [json_object_set_new] refuses a key that is not, which
    goes unnoticed, and the record is left without the cell. *)
Theorem make_json_objects_records (labels : list string) (query_output : genQueryOut_t) :
  page_ok labels query_output = true ->
  exists records,
    make_json_objects query_output labels = Ret (Some (json_array_of records)) /\
    Z.of_nat (List.length records) = rowCnt query_output /\
    Forall (fun record =>
              NoDup (keys record) /\
              forall k, k ∈ keys record
                        <-> k ∈ take (Z.to_nat (attriCnt query_output)) labels /\
                            utf8_check_string k = true)
      records.
Proof.
  intros Hok. destruct (page_ok_inv _ _ Hok) as (Hrows & Hcols & _).
  exists (page_records labels query_output).
  split; [now apply make_json_objects_spec|].
  split; [rewrite length_page_records; lia|].
  unfold page_records. apply Forall_map, Forall_forall. intros row _.
  unfold row_record, json_object.
  destruct (foldl_set_member_keys
              (fun i => (label_at labels i, json_string_of (cell_text query_output row i)))
              (seqZ 0 (attriCnt query_output)) []) as (members & Hrun & Hnd & Hkeys);
    [constructor|].
  simpl in Hrun. rewrite Hrun. simpl. split; [exact Hnd|].
  intros k. rewrite Hkeys. simpl.
  change (map (fun i => label_at labels i) (seqZ 0 (attriCnt query_output)))
    with (map (label_at labels) (seqZ 0 (attriCnt query_output))).
  rewrite labels_of_columns by lia.
  split; [intros [Hin|Hin]; [inversion Hin|assumption]|now right].
Qed.

Lemma read_cstr_plain (buf : list ascii) :
  read_cstr buf <> OutOfFuel /\ read_cstr buf <> Aborted.
Proof.
  induction buf as [|c buf [IHfuel IHabort]]; simpl; [split; discriminate|].
  destruct (Ascii.eqb c Ascii.zero); [split; discriminate|].
  destruct (read_cstr buf); simpl; split; try discriminate; contradiction.
Qed.

Lemma array_get_plain {A : Type} (l : list A) (i : Z) :
  array_get l i <> OutOfFuel /\ array_get l i <> Aborted.
Proof.
  unfold array_get. destruct (decide _); [|split; discriminate].
  destruct (l !! Z.to_nat i); split; discriminate.
Qed.

Lemma cstr_at_plain (buf : list ascii) (off : Z) :
  cstr_at buf off <> OutOfFuel /\ cstr_at buf off <> Aborted.
Proof.
  unfold cstr_at. destruct (decide _); [apply read_cstr_plain|split; discriminate].
Qed.

(** A pass of the inner loop of [make_json_objects] neither runs out of
    fuel nor aborts on a cell that holds no text outside UTF-8. *)
Lemma encode_cell_plain (query_output : genQueryOut_t) (labels : list string)
    (row i : Z) (jrow : json_t) :
  (forall text, page_cell query_output row i = Ret text ->
                utf8_check_string text = true) ->
  let pass :=
    col <- array_get (sqlResult query_output) i ;;
    label <- array_get labels i ;;
    result <- cstr_at (sr_value col) (row * sr_len col) ;;
    jvalue <- assert (json_string result) ;;
    Ret (snd (json_object_set_new jrow label jvalue)) in
  pass <> OutOfFuel /\ pass <> Aborted.
Proof.
  intros Hcell pass.
  assert (pass = Undefined \/ exists jrow', pass = Ret jrow') as [->|[jrow' ->]];
    [|split; discriminate..].
  subst pass. unfold page_cell in Hcell.
  destruct (array_get_plain (sqlResult query_output) i) as [Hfuel Habort].
  destruct (array_get (sqlResult query_output) i) as [col| | |];
    try contradiction; [|now left].
  clear Hfuel Habort. cbn [bind] in Hcell |- *.
  destruct (array_get_plain labels i) as [Hfuel Habort].
  destruct (array_get labels i) as [label| | |]; try contradiction; [|now left].
  clear Hfuel Habort. cbn [bind].
  destruct (cstr_at_plain (sr_value col) (row * sr_len col)) as [Hfuel Habort].
  destruct (cstr_at _ _) as [text| | |]; try contradiction; [|now left].
  cbn [bind]. unfold json_string. rewrite (Hcell text eq_refl).
  right. eexists. reflexivity.
Qed.

(** X9. With fewer labels than the page has columns, and a first row
    whose cells under the labels hold no text outside UTF-8,
    [make_json_objects] reads past the end of the labels. *)
Theorem make_json_objects_past_labels (labels : list string)
    (query_output : genQueryOut_t) :
  0 < rowCnt query_output ->
  Z.of_nat (List.length labels) < attriCnt query_output ->
  (forall i text,
     0 <= i < Z.of_nat (List.length labels) ->
     page_cell query_output 0 i = Ret text -> utf8_check_string text = true) ->
  make_json_objects query_output labels = Undefined.
Proof.
  intros Hrows Hcols Hcells. unfold make_json_objects, for_range.
  destruct (Z.to_nat (rowCnt query_output - 0)) as [|n] eqn:Hn; [lia|].
  simpl for_loop.
  rewrite (for_loop_undefined _ _ (Z.of_nat (List.length labels))); [reflexivity| |lia|].
  - intros j t Hj. apply encode_cell_plain. intros text. apply Hcells. lia.
  - intros t.
    destruct (array_get_plain (sqlResult query_output)
                (Z.of_nat (List.length labels))) as [Hfuel Habort].
    destruct (array_get (sqlResult query_output) _); try contradiction;
      [|reflexivity].
    cbn [bind]. unfold array_get. rewrite decide_True by lia.
    now rewrite lookup_ge_None_2 by lia.
Qed.

(** X23. A cell that is not valid UTF-8 stops the program: [json_string]
    gives [NULL] for it and the [assert] on its result fails. So it is
    with the first cell of a page, whatever the other cells hold. *)
Theorem make_json_objects_aborts (labels : list string) (query_output : genQueryOut_t)
    (text : string) :
  0 < rowCnt query_output -> 0 < attriCnt query_output ->
  labels <> [] ->
  page_cell query_output 0 0 = Ret text ->
  utf8_check_string text = false ->
  make_json_objects query_output labels = Aborted.
Proof.
  intros Hrows Hcols Hlabels Hcell Hbad. unfold make_json_objects, for_range.
  destruct (Z.to_nat (rowCnt query_output - 0)) as [|n] eqn:Hn; [lia|].
  destruct (Z.to_nat (attriCnt query_output - 0)) as [|m] eqn:Hm; [lia|].
  destruct (page_cell_inv _ _ _ _ Hcell) as (col & Hcol & Htext).
  destruct labels as [|label labels]; [contradiction|].
  cbn [for_loop]. rewrite Hcol. cbn [bind].
  change (array_get (label :: labels) 0) with (Ret label). cbn [bind].
  rewrite Htext. cbn [bind]. unfold json_string. rewrite Hbad. reflexivity.
Qed.

(** ** Chunked execution, continued *)

Section ExecutorExtras.
Context {rcComm_t : Type} {client : IrodsClient rcComm_t}.

(** X10. [do_query] never reads the [query_output] it is given, which its
    callers leave uninitialised: the result is the same for any. *)
Theorem do_query_ignores_query_output (fuel : nat) (conn : rcComm_t)
    (query_input : genQueryInp_t) (query_output : option genQueryOut_t)
    (labels : list string) :
  do_query fuel conn query_input query_output labels
  = do_query fuel conn query_input None labels.
Proof. destruct fuel; reflexivity. Qed.

(** After pages with positive tokens, a failing status. *)
Lemma do_query_bad_status (labels : list string) (conn conn1 conn2 : rcComm_t)
    (query_input query_input1 : genQueryInp_t) (pages : list genQueryOut_t)
    (status : Z) (out : option genQueryOut_t) (fuel : nat) :
  serves conn query_input pages conn1 query_input1 ->
  Forall (fun page => page_ok labels page = true) pages ->
  Forall (fun page => 0 < out_continueInx page) pages ->
  rcGenQuery conn1 query_input1 = (status, out, conn2) ->
  status <> 0 -> status <> CAT_NO_ROWS_FOUND ->
  (List.length pages < fuel)%nat ->
  do_query fuel conn query_input None labels
  = Ret (do_query_error conn2 (Z.of_nat (List.length pages)) status).
Proof.
  intros Hserves Hok Htokens Hanswer Hnz Hrows Hfuel.
  destruct (do_query_loop_prefix labels _ _ _ _ _ Hserves Hok Htokens
              (fuel - List.length pages)%nat None 0 [])
    as (query_output' & Hgo & Hrun); [lia|now left|].
  unfold do_query, json_array.
  replace fuel with (List.length pages + (fuel - List.length pages))%nat at 1 by lia.
  rewrite Hrun.
  destruct (fuel - List.length pages)%nat as [|rest] eqn:Hrest; [lia|].
  now rewrite (do_query_loop_bad_status _ _ _ _ _ _ _ _ _ _ Hgo Hanswer Hnz Hrows).
Qed.

End ExecutorExtras.

(** ** Listing and describing *)

Section ListingFacts.
Context {header : BatonHeader} {rcComm_t : Type} {client : IrodsClient rcComm_t}.

(** X11. For a path that does not exist, or that is neither a data object
    nor a collection, [list_metadata] returns [NULL] and logs one error,
    and no query reaches the catalog: the connection is as it was. *)
Theorem list_metadata_refuses (fuel : nat) (conn : rcComm_t) (path : rodsPath_t)
    (name : option string) :
  objState path = NOT_EXIST_ST \/
  (objType path <> DATA_OBJ_T /\ objType path <> COLL_OBJ_T) ->
  exists entry,
    list_metadata fuel conn path name = Ret (None, conn, [entry]) /\
    level entry = ERROR /\ args entry = [arg_str (outPath path)].
Proof.
  intros [Hstate|[Hdata Hcoll]]; unfold list_metadata.
  - rewrite Hstate. eexists. split; [reflexivity|]. split; reflexivity.
  - destruct (objState path), (objType path); try contradiction;
      (eexists; split; [reflexivity|]; split; reflexivity).
Qed.

Lemma list_metadata_query (fuel : nat) (conn : rcComm_t) (path : rodsPath_t)
    (name : option string) (query_input : genQueryInp_t) :
  listable path ->
  list_input path name = Ret query_input ->
  list_metadata fuel conn path name
  = do_query fuel conn query_input None ["attribute"; "value"; "units"].
Proof.
  intros [Hstate Hkind] Hinput.
  unfold list_metadata, list_input, obj_list_input, col_list_input in *.
  destruct Hkind as [Hkind|Hkind]; rewrite Hkind in *;
    destruct (objState path); try contradiction;
    destruct (make_query_input _ _ _) as [q| | |]; cbn [bind] in Hinput |- *;
    try discriminate; now rewrite Hinput.
Qed.

(** The descriptor of a listing, and its conditions. *)
Lemma list_input_runs (path : rodsPath_t) (filter : option string) :
  objType path = DATA_OBJ_T \/ objType path = COLL_OBJ_T ->
  3 <= MAX_NUM_CONDITIONALS ->
  exists query_input,
    list_input path filter = Ret query_input /\
    conditions query_input = listing_conditions path filter.
Proof.
  intros Hkind Hmax.
  unfold list_input, obj_list_input, col_list_input, listing_conditions.
  destruct Hkind as [-> | ->].
  - destruct (make_query_input_runs 10 3
                [COL_META_DATA_ATTR_NAME; COL_META_DATA_ATTR_VALUE;
                 COL_META_DATA_ATTR_UNITS]) as [q Hq]; [simpl; lia|].
    destruct (make_query_input_fresh _ _ _ _ Hq) as (Hin & Hlen & Hnone & _); [lia|].
    rewrite Hq. cbn [bind]. unfold prepare_obj_list.
    destruct filter as [a|];
      match goal with
      | |- context [add_query_conds ?q ?n ?l] =>
          destruct (add_query_conds_spec q l) as (q' & Hrun & Hc & _);
            [exact Hin|repeat constructor; simpl; eauto|simpl; lia|];
          exists q'; split; [exact Hrun|];
          rewrite Hc, Hnone; reflexivity
      end.
  - destruct (make_query_input_runs 10 3
                [COL_META_COLL_ATTR_NAME; COL_META_COLL_ATTR_VALUE;
                 COL_META_COLL_ATTR_UNITS]) as [q Hq]; [simpl; lia|].
    destruct (make_query_input_fresh _ _ _ _ Hq) as (Hin & Hlen & Hnone & _); [lia|].
    rewrite Hq. cbn [bind]. unfold prepare_col_list.
    destruct filter as [a|];
      match goal with
      | |- context [add_query_conds ?q ?n ?l] =>
          destruct (add_query_conds_spec q l) as (q' & Hrun & Hc & _);
            [exact Hin|repeat constructor; simpl; eauto|simpl; lia|];
          exists q'; split; [exact Hrun|];
          rewrite Hc, Hnone; reflexivity
      end.
Qed.

Lemma list_input_conditions (path : rodsPath_t) (filter : option string)
    (query_input : genQueryInp_t) :
  listable path ->
  3 <= MAX_NUM_CONDITIONALS ->
  list_input path filter = Ret query_input ->
  conditions query_input = listing_conditions path filter.
Proof.
  intros [_ Hkind] Hmax Hinput.
  destruct (list_input_runs path filter Hkind Hmax) as (q & Hq & Hc).
  rewrite Hq in Hinput. now injection Hinput as <-.
Qed.

(** X12. For a data object or a collection, the query of [list_metadata]
    carries the conditions that select the path (and the attribute, with
    a filter); when the catalog answers it with a run of pages,
    [list_metadata] returns the records of those pages in order; when the
    pages have the three columns asked for, every record carries the
    labels attribute, value and units. *)
Theorem list_metadata_lists (fuel : nat) (conn conn' : rcComm_t) (path : rodsPath_t)
    (name : option string) (query_input query_input' : genQueryInp_t)
    (pages : list genQueryOut_t) :
  let labels := ["attribute"; "value"; "units"] in
  listable path ->
  3 <= MAX_NUM_CONDITIONALS ->
  list_input path name = Ret query_input ->
  serves conn query_input pages conn' query_input' ->
  Forall (fun page => page_ok labels page = true /\ attriCnt page = 3) pages ->
  paged pages ->
  (List.length pages < fuel)%nat ->
  conditions query_input = listing_conditions path name /\
  list_metadata fuel conn path name
  = Ret (Some (json_array_of (records_of labels pages)), conn', []) /\
  Forall (fun record => keys record = labels) (records_of labels pages).
Proof.
  intros labels Hlistable Hmax Hinput Hserves Hok Hpaged Hfuel.
  split; [now apply list_input_conditions|]. split.
  - rewrite (list_metadata_query _ _ _ _ _ Hlistable Hinput).
    apply (do_query_pages labels _ _ _ _ _ _ Hserves); try assumption.
    eapply Forall_impl; [exact Hok|]. now intros ? [? _].
  - apply (records_of_keys labels 3 _ Hok).
    + repeat constructor.
    + apply (bool_decide_unpack _). reflexivity.
Qed.

(** X13. Describing a data object or a collection whose path is valid
    UTF-8 and whose listing (the query with the conditions that select
    the path, without filter) the catalog answers with a run of pages
    gives one record: the identity of the path (collection, and data
    object) followed by all its AVUs under the key avus. *)
Theorem rods_path_to_json_describes (fuel : nat) (conn conn' : rcComm_t)
    (path : rodsPath_t) (query_input query_input' : genQueryInp_t)
    (pages : list genQueryOut_t) :
  let labels := ["attribute"; "value"; "units"] in
  listable path ->
  3 <= MAX_NUM_CONDITIONALS ->
  utf8_check_string (outPath path) = true ->
  list_input path None = Ret query_input ->
  serves conn query_input pages conn' query_input' ->
  Forall (fun page => page_ok labels page = true) pages ->
  paged pages ->
  (List.length pages < fuel)%nat ->
  conditions query_input = listing_conditions path None /\
  rods_path_to_json fuel conn path
  = Ret (Some (json_object_of
                 (identity_entries path
                  ++ [("avus", json_array_of (records_of labels pages))])),
         conn', []).
Proof.
  intros labels Hlistable Hmax Hutf8 Hinput Hserves Hok Hpaged Hfuel. subst labels.
  split; [now apply list_input_conditions|].
  pose proof (list_metadata_query fuel conn _ _ _ Hlistable Hinput) as Hlist.
  rewrite (do_query_pages _ _ _ _ _ _ _ Hserves Hok Hpaged Hfuel) in Hlist.
  unfold rods_path_to_json, identity_entries.
  rewrite data_object_path_to_json_spec, collection_path_to_json_spec, Hutf8.
  destruct Hlistable as [_ [Hkind|Hkind]]; rewrite Hkind; cbn [bind];
    rewrite Hlist; reflexivity.
Qed.

(** X14. When the listing of a path in valid UTF-8 (the query with the
    conditions that select the path) fails with a status of the catalog,
    describing the path returns [NULL], never the identity alone: the
    failure of the query, with its status, the error stack of the
    connection and the failure of the conversion are logged, in this
    order. *)
Theorem rods_path_to_json_fails_whole (fuel : nat) (conn conn1 conn2 : rcComm_t)
    (path : rodsPath_t) (query_input query_input1 : genQueryInp_t)
    (pages : list genQueryOut_t) (status : Z) (out : option genQueryOut_t) :
  let labels := ["attribute"; "value"; "units"] in
  listable path ->
  3 <= MAX_NUM_CONDITIONALS ->
  utf8_check_string (outPath path) = true ->
  list_input path None = Ret query_input ->
  serves conn query_input pages conn1 query_input1 ->
  Forall (fun page => page_ok labels page = true) pages ->
  Forall (fun page => 0 < out_continueInx page) pages ->
  rcGenQuery conn1 query_input1 = (status, out, conn2) ->
  status <> 0 -> status <> CAT_NO_ROWS_FOUND ->
  (List.length pages < fuel)%nat ->
  conditions query_input = listing_conditions path None /\
  rods_path_to_json fuel conn path
  = Ret (None, conn2,
         {| level := ERROR;
            format := "Failed get query result: in chunk %d error %d %s %s";
            args := [arg_int (Z.of_nat (List.length pages)); arg_int status;
                     arg_str (rodsErrorName status).1;
                     arg_str (rodsErrorName status).2] |}
         :: match rError conn2 with
            | Some error =>
                imap (fun i msg => {| level := ERROR; format := "Level %d: %s";
                                      args := [arg_int (Z.of_nat i); arg_str msg] |})
                  error
            | None => []
            end
         ++ [{| level := ERROR; format := "Failed to covert '%s' to JSON";
                args := [arg_str (outPath path)] |}]).
Proof.
  intros labels Hlistable Hmax Hutf8 Hinput Hserves Hok Htokens Hanswer Hnz Hrows
    Hfuel.
  subst labels.
  split; [now apply list_input_conditions|].
  pose proof (list_metadata_query fuel conn _ _ _ Hlistable Hinput) as Hlist.
  rewrite (do_query_bad_status _ _ _ _ _ _ _ _ _ _ Hserves Hok Htokens Hanswer
             Hnz Hrows Hfuel) in Hlist.
  unfold rods_path_to_json.
  rewrite data_object_path_to_json_spec, collection_path_to_json_spec, Hutf8.
  destruct Hlistable as [_ [Hkind|Hkind]]; rewrite Hkind; cbn [bind];
    rewrite Hlist; unfold do_query_error; destruct (rodsErrorName status); reflexivity.
Qed.

(** X15. For a path that does not exist, or that is neither a data object
    nor a collection, describing it returns [NULL] without a query to the
    catalog; the log ends with the failure of the conversion, which, for
    a path in valid UTF-8, comes after one error that names the path. *)
Theorem rods_path_to_json_refuses (fuel : nat) (conn : rcComm_t) (path : rodsPath_t) :
  objState path = NOT_EXIST_ST \/
  (objType path <> DATA_OBJ_T /\ objType path <> COLL_OBJ_T) ->
  exists log,
    rods_path_to_json fuel conn path
    = Ret (None, conn,
           log ++ [{| level := ERROR; format := "Failed to covert '%s' to JSON";
                      args := [arg_str (outPath path)] |}]) /\
    (utf8_check_string (outPath path) = true ->
     exists entry,
       log = [entry] /\ level entry = ERROR /\ args entry = [arg_str (outPath path)]).
Proof.
  intros Hrefused. unfold rods_path_to_json.
  rewrite data_object_path_to_json_spec, collection_path_to_json_spec.
  destruct (utf8_check_string (outPath path)) eqn:Hutf8.
  - destruct Hrefused as [Hstate|[Hdata Hcoll]]; unfold list_metadata.
    + rewrite Hstate.
      destruct (objType path); cbn [bind];
        (eexists; split; [reflexivity|]; intros _; eexists;
         split; [reflexivity|]; split; reflexivity).
    + destruct (objType path); try contradiction;
        (eexists; split; [reflexivity|]; intros _; eexists;
         split; [reflexivity|]; split; reflexivity).
  - destruct (objType path);
      try (exists []; split; [reflexivity|discriminate]);
      (eexists; split; [reflexivity|discriminate]).
Qed.

(** X24. A data object or a collection whose path is not valid UTF-8 is
    not described: [json_pack] gives [NULL] for its identity, and
    [rods_path_to_json] returns [NULL] with the failure of the conversion
    as its one message, before any query is sent. *)
Theorem rods_path_to_json_not_utf8 (fuel : nat) (conn : rcComm_t) (path : rodsPath_t) :
  objType path = DATA_OBJ_T \/ objType path = COLL_OBJ_T ->
  utf8_check_string (outPath path) = false ->
  rods_path_to_json fuel conn path
  = Ret (None, conn,
         [{| level := ERROR; format := "Failed to covert '%s' to JSON";
             args := [arg_str (outPath path)] |}]).
Proof.
  intros Hkind Hutf8. unfold rods_path_to_json.
  rewrite data_object_path_to_json_spec, collection_path_to_json_spec, Hutf8.
  destruct Hkind as [-> | ->]; reflexivity.
Qed.

End ListingFacts.

(** ** Searching, continued *)

Section SearchExtras.
Context {header : BatonHeader} {rcComm_t : Type} {client : IrodsClient rcComm_t}.

(** X16. [search_metadata] does not look at the outcome of its two
    queries: when the search over collections (the query with the two
    conditions on the attribute and the value of collections) fails with
    a status of the catalog and the search over data objects (the same
    conditions on data objects) is answered, the result is the records
    of the data objects alone, with the failure in the log. *)
Theorem search_metadata_keeps_going (fuel : nat) (conn conn1 conn2 conn3 : rcComm_t)
    (name val : string)
    (col_input col_input1 obj_input obj_input' : genQueryInp_t)
    (collections data_objects : list genQueryOut_t)
    (status : Z) (out : option genQueryOut_t) :
  let labels := ["collection"; "data_object"] in
  2 <= MAX_NUM_CONDITIONALS ->
  col_search_input (Some name) (Some val) = Ret col_input ->
  obj_search_input (Some name) (Some val) = Ret obj_input ->
  serves conn col_input collections conn1 col_input1 ->
  Forall (fun page => page_ok labels page = true) collections ->
  Forall (fun page => 0 < out_continueInx page) collections ->
  rcGenQuery conn1 col_input1 = (status, out, conn2) ->
  status <> 0 -> status <> CAT_NO_ROWS_FOUND ->
  serves conn2 obj_input data_objects conn3 obj_input' ->
  Forall (fun page => page_ok labels page = true) data_objects ->
  paged data_objects ->
  (List.length collections < fuel)%nat ->
  (List.length data_objects < fuel)%nat ->
  conditions col_input
  = [(COL_META_COLL_ATTR_NAME, Some ("= '" +:+ name +:+ "'"));
     (COL_META_COLL_ATTR_VALUE, Some ("= '" +:+ val +:+ "'"))] /\
  conditions obj_input
  = [(COL_META_DATA_ATTR_NAME, Some ("= '" +:+ name +:+ "'"));
     (COL_META_DATA_ATTR_VALUE, Some ("= '" +:+ val +:+ "'"))] /\
  search_metadata fuel conn (Some name) (Some val)
  = Ret (Some (json_array_of (records_of labels data_objects)), conn3,
         {| level := ERROR;
            format := "Failed get query result: in chunk %d error %d %s %s";
            args := [arg_int (Z.of_nat (List.length collections)); arg_int status;
                     arg_str (rodsErrorName status).1;
                     arg_str (rodsErrorName status).2] |}
         :: match rError conn2 with
            | Some error =>
                imap (fun i msg => {| level := ERROR; format := "Level %d: %s";
                                      args := [arg_int (Z.of_nat i); arg_str msg] |})
                  error
            | None => []
            end).
Proof.
  intros labels Hmax Hcol Hobj Hserves1 Hok1 Htokens Hanswer Hnz Hrows Hserves2 Hok2
    Hpaged Hfuel1 Hfuel2. subst labels.
  destruct (search_inputs_run name val Hmax) as [(q1' & Hq1 & Hc1) (q2' & Hq2 & Hc2)].
  split; [rewrite Hq1 in Hcol; now injection Hcol as <-|].
  split; [rewrite Hq2 in Hobj; now injection Hobj as <-|].
  clear q1' q2' Hq1 Hq2 Hc1 Hc2.
  unfold search_metadata, col_search_input, obj_search_input in *.
  change (1 + 1) with 2.
  destruct (make_query_input 10 1 _) as [q1| | |]; cbn [bind] in Hcol |- *;
    try discriminate.
  rewrite Hcol. cbn [bind].
  rewrite (do_query_bad_status _ _ _ _ _ _ _ _ _ _ Hserves1 Hok1 Htokens Hanswer
             Hnz Hrows Hfuel1).
  unfold do_query_error. destruct (rodsErrorName status) as [err_name err_subname].
  cbn [bind].
  destruct (make_query_input 10 2 _) as [q2| | |]; cbn [bind] in Hobj |- *;
    try discriminate.
  rewrite Hobj. cbn [bind].
  rewrite (do_query_pages _ _ _ _ _ _ _ Hserves2 Hok2 Hpaged Hfuel2).
  cbn [bind]. simpl. now rewrite app_nil_r.
Qed.

(** X25. A search for an attribute and a value of which both collections
    and data objects are found: when the catalog answers the query for
    the collections (the two conditions on the attribute and the value
    of collections) with a run of pages of one column, and then the query
    for the data objects (the same conditions on data objects) with a run
    of pages of two columns, [search_metadata] returns the records of the
    collections followed by those of the data objects; the former carry
    the label collection alone, the latter the labels collection and
    data_object. *)
Theorem search_metadata_concatenates (fuel : nat) (conn conn1 conn2 : rcComm_t)
    (name val : string)
    (col_input col_input' obj_input obj_input' : genQueryInp_t)
    (collections data_objects : list genQueryOut_t) :
  let labels := ["collection"; "data_object"] in
  2 <= MAX_NUM_CONDITIONALS ->
  col_search_input (Some name) (Some val) = Ret col_input ->
  obj_search_input (Some name) (Some val) = Ret obj_input ->
  serves conn col_input collections conn1 col_input' ->
  serves conn1 obj_input data_objects conn2 obj_input' ->
  paged collections -> paged data_objects ->
  Forall (fun page => page_ok labels page = true /\ attriCnt page = 1) collections ->
  Forall (fun page => page_ok labels page = true /\ attriCnt page = 2) data_objects ->
  (List.length collections < fuel)%nat ->
  (List.length data_objects < fuel)%nat ->
  conditions col_input
  = [(COL_META_COLL_ATTR_NAME, Some ("= '" +:+ name +:+ "'"));
     (COL_META_COLL_ATTR_VALUE, Some ("= '" +:+ val +:+ "'"))] /\
  conditions obj_input
  = [(COL_META_DATA_ATTR_NAME, Some ("= '" +:+ name +:+ "'"));
     (COL_META_DATA_ATTR_VALUE, Some ("= '" +:+ val +:+ "'"))] /\
  search_metadata fuel conn (Some name) (Some val)
  = Ret (Some (json_array_of (records_of labels collections
                              ++ records_of labels data_objects)),
         conn2, []) /\
  Forall (fun record => keys record = ["collection"]) (records_of labels collections) /\
  Forall (fun record => keys record = ["collection"; "data_object"])
    (records_of labels data_objects).
Proof.
  intros labels Hmax Hcol Hobj Hserves1 Hserves2 Hpaged1 Hpaged2 Hok1 Hok2
    Hfuel1 Hfuel2.
  destruct (search_inputs_run name val Hmax) as [(q1 & Hq1 & Hc1) (q2 & Hq2 & Hc2)].
  rewrite Hq1 in Hcol. injection Hcol as <-.
  rewrite Hq2 in Hobj. injection Hobj as <-.
  split; [exact Hc1|]. split; [exact Hc2|].
  split; [|split].
  - unfold search_metadata, col_search_input, obj_search_input in *.
    change (1 + 1) with 2.
    destruct (make_query_input 10 1 _) as [q1'| | |]; cbn [bind] in Hq1 |- *;
      try discriminate.
    rewrite Hq1. cbn [bind].
    rewrite (do_query_pages labels _ _ _ _ _ _ Hserves1);
      [|eapply Forall_impl; [exact Hok1|now intros ? [? _]]|assumption..].
    cbn [bind].
    destruct (make_query_input 10 2 _) as [q2'| | |]; cbn [bind] in Hq2 |- *;
      try discriminate.
    rewrite Hq2. cbn [bind].
    rewrite (do_query_pages labels _ _ _ _ _ _ Hserves2);
      [|eapply Forall_impl; [exact Hok2|now intros ? [? _]]|assumption..].
    reflexivity.
  - apply (records_of_keys labels 1 _ Hok1); simpl.
    + repeat constructor.
    + repeat constructor. inversion 1.
  - apply (records_of_keys labels 2 _ Hok2); simpl.
    + repeat constructor.
    + repeat constructor; [|inversion 1].
      intros Hin. apply list_elem_of_singleton in Hin. discriminate.
Qed.

End SearchExtras.

(** ** Metadata updates, continued *)

Section MutationExtras.
Context {header : BatonHeader} {rcComm_t : Type} {client : IrodsClient rcComm_t}.


(** X18. For a data object or a collection, [modify_metadata] returns the
    status of the catalog as it is. A status that is not negative leaves
    the log empty; a negative one is reported in an error message that
    carries it. *)
Theorem modify_metadata_reports (conn conn' : rcComm_t) (path : rodsPath_t)
    (o : metadata_op) (name val units : option string) (status : Z) :
  objType path = DATA_OBJ_T \/ objType path = COLL_OBJ_T ->
  rcModAVUMetadata conn
    (map_mod_args {| op := o;
                     type_arg := Some (match objType path with
                                       | DATA_OBJ_T => "-d"
                                       | _ => "-C"
                                       end);
                     rods_path := path; attr_name := name; attr_value := val;
                     attr_units := units |})
  = (status, conn') ->
  exists log,
    modify_metadata conn path o name val units = (status, conn', log) /\
    (0 <= status -> log = []) /\
    (status < 0 ->
     exists entry rest,
       log = entry :: rest /\ level entry = ERROR /\ arg_int status ∈ args entry).
Proof.
  intros Hkind Hanswer. unfold modify_metadata.
  destruct Hkind as [Hkind|Hkind]; rewrite Hkind in *; rewrite Hanswer;
    destruct (Z.ltb_spec status 0) as [Hneg|Hpos];
    try destruct (rodsErrorName status) as [err_name err_subname];
    (eexists; split; [reflexivity|]; split; [intros ?|intros ?]);
    try lia; try reflexivity;
    (eexists; eexists; split; [reflexivity|]; split; [reflexivity|]);
    simpl; rewrite !elem_of_cons; tauto.
Qed.

End MutationExtras.

(** ** Paths, continued *)

Lemma span_while_stop (f : ascii -> bool) (a : list ascii) (c : ascii) (b : list ascii) :
  Forall (fun x => f x = true) a -> f c = false ->
  span_while f (a ++ c :: b) = a /\ skip_while f (a ++ c :: b) = c :: b.
Proof.
  intros Ha Hc. induction Ha as [|x a Hx _ IH]; simpl.
  - now rewrite Hc.
  - rewrite Hx. destruct IH as [-> ->]. split; reflexivity.
Qed.

(** The last component of a path, and what stands before the separator
    in front of it. *)
Lemma dirname_basename_chars (dir name : list ascii) (last_of_dir last_of_name : ascii)
    (start_of_dir start_of_name : list ascii) :
  dir = start_of_dir ++ [last_of_dir] -> last_of_dir <> sep ->
  name = start_of_name ++ [last_of_name] ->
  Forall (fun c => not_sep c = true) name ->
  dirname_chars (dir ++ sep :: name) = dir /\
  basename_chars (dir ++ sep :: name) = name.
Proof.
  intros Hdir Hlast Hname Hall.
  assert (is_sep last_of_dir = false) as Hlast'.
  { destruct (is_sep last_of_dir) eqn:Hs; [|reflexivity].
    now apply is_sep_true in Hs. }
  assert (rev (dir ++ sep :: name) = rev name ++ sep :: rev dir) as Hrev.
  { rewrite rev_app_distr. simpl. now rewrite <- app_assoc. }
  assert (Forall (fun c => not_sep c = true) (rev name)) as Hall' by now apply Forall_rev.
  assert (not_sep sep = false) as Hsep by reflexivity.
  destruct (span_while_stop not_sep (rev name) sep (rev dir) Hall' Hsep) as [Hspan Hskip].
  assert (rev name = last_of_name :: rev start_of_name) as Hrn.
  { rewrite Hname, rev_app_distr. reflexivity. }
  assert (is_sep last_of_name = false) as Hln.
  { rewrite Hrn in Hall'. apply Forall_cons in Hall' as [Hc _].
    unfold not_sep in Hc. now apply negb_true_iff in Hc. }
  assert (skip_while is_sep (rev (dir ++ sep :: name)) = rev name ++ sep :: rev dir)
    as Htrim.
  { rewrite Hrev, Hrn. simpl. now rewrite Hln. }
  assert (rev dir = last_of_dir :: rev start_of_dir) as Hrd.
  { rewrite Hdir, rev_app_distr. reflexivity. }
  unfold dirname_chars, basename_chars.
  destruct (dir ++ sep :: name) as [|c0 path] eqn:Hpath.
  { destruct dir; discriminate. }
  rewrite Htrim.
  remember (rev name ++ sep :: rev dir) as trimmed eqn:Htrimmed.
  destruct trimmed as [|c1 trimmed]; [rewrite Hrn in Htrimmed; discriminate|].
  rewrite Hspan, Hskip, rev_involutive.
  split; [|reflexivity].
  simpl. rewrite Hrd. simpl. rewrite Hlast'.
  now rewrite rev_involutive, Hdir.
Qed.

Lemma top_level_chars (name start_of_name : list ascii) (last_of_name : ascii) :
  name = start_of_name ++ [last_of_name] ->
  Forall (fun c => not_sep c = true) name ->
  dirname_chars (sep :: name) = [sep] /\ basename_chars (sep :: name) = name.
Proof.
  intros Hname Hall.
  assert (Forall (fun c => not_sep c = true) (rev name)) as Hall' by now apply Forall_rev.
  assert (not_sep sep = false) as Hsep by reflexivity.
  destruct (span_while_stop not_sep (rev name) sep [] Hall' Hsep) as [Hspan Hskip].
  assert (rev name = last_of_name :: rev start_of_name) as Hrn.
  { rewrite Hname, rev_app_distr. reflexivity. }
  assert (is_sep last_of_name = false) as Hln.
  { rewrite Hrn in Hall'. apply Forall_cons in Hall' as [Hc _].
    unfold not_sep in Hc. now apply negb_true_iff in Hc. }
  assert (skip_while is_sep (rev (sep :: name)) = rev name ++ [sep]) as Htrim.
  { simpl. rewrite Hrn. simpl. now rewrite Hln. }
  unfold dirname_chars, basename_chars. rewrite Htrim.
  remember (rev name ++ [sep]) as trimmed eqn:Htrimmed.
  destruct trimmed as [|c1 trimmed]; [rewrite Hrn in Htrimmed; discriminate|].
  rewrite Hspan, Hskip, rev_involutive. split; reflexivity.
Qed.

Lemma simple_name_chars (name : string) :
  simple_name name ->
  exists start c,
    chars name = start ++ [c] /\ Forall (fun x => not_sep x = true) (chars name).
Proof.
  intros [Hne Hsep].
  destruct (exists_last (l := chars name)) as (start & c & Hlast).
  - intros Hnil. apply Hne. destruct name; [reflexivity|discriminate].
  - exists start, c. split; [assumption|].
    apply List.Forall_forall. intros x Hx. unfold not_sep.
    apply negb_true_iff. destruct (is_sep x) eqn:Hs; [|reflexivity].
    apply is_sep_true in Hs as ->. exfalso. now apply Hsep, list_elem_of_In.
Qed.

Lemma text_chars (s : string) : text (chars s) = s.
Proof. apply string_of_list_ascii_of_string. Qed.

(** X19. For a path in valid UTF-8 made of a parent, one separator and a
    name (the parent being the root, or ending with a character of a
    name), the record of [data_object_path_to_json] has exactly that
    parent as its collection and that name as its data object. *)
Theorem data_object_path_exact (name : string) :
  simple_name name ->
  utf8_check_string name = true ->
  data_object_path_to_json ("/" +:+ name)
  = Some (json_object_of [("collection", json_string_of "/");
                          ("data_object", json_string_of name)]) /\
  forall dir,
    ends_in_name dir ->
    utf8_check_string dir = true ->
    data_object_path_to_json (dir +:+ "/" +:+ name)
    = Some (json_object_of [("collection", json_string_of dir);
                            ("data_object", json_string_of name)]).
Proof.
  intros Hname Hutf8.
  destruct (simple_name_chars name Hname) as (start & c & Hlast & Hall).
  split.
  - rewrite data_object_path_to_json_spec, (utf8_check_path ("/" +:+ name)).
    unfold dirname, basename. rewrite chars_app.
    change (chars "/" ++ chars name) with (sep :: chars name).
    destruct (top_level_chars _ _ _ Hlast Hall) as [-> ->].
    rewrite text_chars, Hutf8. reflexivity.
  - intros dir (dstart & d & Hdir & Hd) Hdir_utf8.
    rewrite data_object_path_to_json_spec,
      (utf8_check_path (dir +:+ "/" +:+ name)).
    unfold dirname, basename. rewrite !chars_app.
    change (chars "/" ++ chars name) with (sep :: chars name).
    destruct (dirname_basename_chars _ _ _ _ _ _ Hdir Hd Hlast Hall) as [-> ->].
    rewrite !text_chars, Hutf8, Hdir_utf8. reflexivity.
Qed.

(** X20. For a path made of separators only, the root, the data object
    is ["/"]: the leaf is a separator. The collection is ["/"] as well,
    but for the path of two separators, which [dirname] leaves as it
    is. *)
Theorem data_object_path_root (path : string) :
  path <> "" -> Forall (fun c => c = sep) (chars path) ->
  data_object_path_to_json path
  = Some (json_object_of
            [("collection", json_string_of (if decide (path = "//") then "//" else "/"));
             ("data_object", json_string_of "/")]).
Proof.
  intros Hne Hall.
  assert (skip_while is_sep (rev (chars path)) = []) as Htrim.
  { apply Forall_rev in Hall. induction Hall as [|c l -> _ IH]; [reflexivity|].
    simpl. exact IH. }
  unfold data_object_path_to_json, dirname, basename, dirname_chars, basename_chars.
  rewrite Htrim. clear Htrim.
  destruct path as [|a [|b [|c path]]]; [contradiction|..]; cbn [chars list_ascii_of_string] in *.
  - apply Forall_cons in Hall as [-> _].
    destruct (decide _) as [Heq|_]; [discriminate Heq|reflexivity].
  - apply Forall_cons in Hall as [-> Hall]. apply Forall_cons in Hall as [-> _].
    destruct (decide _) as [_|Hne']; [reflexivity|contradiction].
  - destruct (decide _) as [Heq|_]; [discriminate Heq|reflexivity].
Qed.

(** X26. The two projections of a path give [NULL] exactly for the paths
    that are not valid UTF-8. *)
Theorem path_to_json_null (path : string) :
  (data_object_path_to_json path = None <-> utf8_check_string path = false) /\
  (collection_path_to_json path = None <-> utf8_check_string path = false).
Proof.
  rewrite data_object_path_to_json_spec, collection_path_to_json_spec.
  destruct (utf8_check_string path); split; split; congruence.
Qed.

(** ** The requests that are sent *)

Section Requests.
Context {header : BatonHeader}.

Lemma fresh_descriptor (max_rows : Z) (selected : inxIvalPair_t) :
  0 <= MAX_NUM_CONDITIONALS ->
  let query_input :=
    {| maxRows := max_rows; continueInx := 0; condInput_len := 0;
       selectInp := selected;
       sqlCondInp := {| vp_len := 0;
                        vp_inx := replicate (Z.to_nat MAX_NUM_CONDITIONALS) 0;
                        vp_value := replicate (Z.to_nat MAX_NUM_CONDITIONALS) None |} |} in
  within_ceiling query_input /\ conditions query_input = [].
Proof.
  intros Hmax. unfold within_ceiling, conditions. simpl.
  rewrite !length_replicate. repeat split; lia.
Qed.

(** X21. The query of [list_metadata]: at most 10 rows a page, starting
    without token; for a data object the three AVU columns of data
    objects, under the conditions on the collection and the name of the
    object; for a collection the three AVU columns of collections, under
    the condition on its path; in both cases a last condition on the
    attribute name when a filter is given. *)
Theorem list_input_request (path : rodsPath_t) (filter : option string) :
  objType path = DATA_OBJ_T \/ objType path = COLL_OBJ_T ->
  3 <= MAX_NUM_CONDITIONALS ->
  exists query_input,
    list_input path filter = Ret query_input /\
    maxRows query_input = 10 /\
    continueInx query_input = 0 /\
    iv_inx (selectInp query_input)
    = match objType path with
      | DATA_OBJ_T => [COL_META_DATA_ATTR_NAME; COL_META_DATA_ATTR_VALUE;
                       COL_META_DATA_ATTR_UNITS]
      | _ => [COL_META_COLL_ATTR_NAME; COL_META_COLL_ATTR_VALUE;
              COL_META_COLL_ATTR_UNITS]
      end /\
    conditions query_input
    = match objType path with
      | DATA_OBJ_T =>
          [(COL_COLL_NAME, Some ("= '" +:+ dirname (outPath path) +:+ "'"));
           (COL_DATA_NAME, Some ("= '" +:+ basename (outPath path) +:+ "'"))]
          ++ match filter with
             | None => []
             | Some a => [(COL_META_DATA_ATTR_NAME, Some ("= '" +:+ a +:+ "'"))]
             end
      | _ =>
          (COL_COLL_NAME, Some ("= '" +:+ outPath path +:+ "'"))
          :: match filter with
             | None => []
             | Some a => [(COL_META_COLL_ATTR_NAME, Some ("= '" +:+ a +:+ "'"))]
             end
      end.
Proof.
  intros Hkind Hmax. unfold list_input, obj_list_input, col_list_input.
  destruct Hkind as [-> | ->].
  - destruct (fresh_descriptor 10
                {| iv_len := 3;
                   iv_inx := [COL_META_DATA_ATTR_NAME; COL_META_DATA_ATTR_VALUE;
                              COL_META_DATA_ATTR_UNITS];
                   iv_value := [0; 0; 0] |}) as [Hin Hnone]; [lia|].
    change (make_query_input 10 3 _) with (Ret
      {| maxRows := 10; continueInx := 0; condInput_len := 0;
         selectInp := {| iv_len := 3;
                         iv_inx := [COL_META_DATA_ATTR_NAME; COL_META_DATA_ATTR_VALUE;
                                    COL_META_DATA_ATTR_UNITS];
                         iv_value := [0; 0; 0] |};
         sqlCondInp := {| vp_len := 0;
                          vp_inx := replicate (Z.to_nat MAX_NUM_CONDITIONALS) 0;
                          vp_value := replicate (Z.to_nat MAX_NUM_CONDITIONALS) None |} |}).
    cbn [bind]. unfold prepare_obj_list.
    destruct filter as [a|];
      match goal with
      | |- context [add_query_conds ?q ?n ?l] =>
          destruct (add_query_conds_spec q l) as (q' & Hrun & Hc & _);
            [exact Hin|repeat constructor; simpl; eauto|simpl; lia|];
          destruct (add_query_conds_keeps _ _ _ _ Hrun) as (Hrows & Htoken & _ & Hsel);
          exists q'; split; [exact Hrun|];
          rewrite Hrows, Htoken, Hsel, Hc, Hnone; repeat split; reflexivity
      end.
  - destruct (fresh_descriptor 10
                {| iv_len := 3;
                   iv_inx := [COL_META_COLL_ATTR_NAME; COL_META_COLL_ATTR_VALUE;
                              COL_META_COLL_ATTR_UNITS];
                   iv_value := [0; 0; 0] |}) as [Hin Hnone]; [lia|].
    change (make_query_input 10 3 _) with (Ret
      {| maxRows := 10; continueInx := 0; condInput_len := 0;
         selectInp := {| iv_len := 3;
                         iv_inx := [COL_META_COLL_ATTR_NAME; COL_META_COLL_ATTR_VALUE;
                                    COL_META_COLL_ATTR_UNITS];
                         iv_value := [0; 0; 0] |};
         sqlCondInp := {| vp_len := 0;
                          vp_inx := replicate (Z.to_nat MAX_NUM_CONDITIONALS) 0;
                          vp_value := replicate (Z.to_nat MAX_NUM_CONDITIONALS) None |} |}).
    cbn [bind]. unfold prepare_col_list.
    destruct filter as [a|];
      match goal with
      | |- context [add_query_conds ?q ?n ?l] =>
          destruct (add_query_conds_spec q l) as (q' & Hrun & Hc & _);
            [exact Hin|repeat constructor; simpl; eauto|simpl; lia|];
          destruct (add_query_conds_keeps _ _ _ _ Hrun) as (Hrows & Htoken & _ & Hsel);
          exists q'; split; [exact Hrun|];
          rewrite Hrows, Htoken, Hsel, Hc, Hnone; repeat split; reflexivity
      end.
Qed.

(** X22. The two queries of [search_metadata], for an attribute and a
    value that are texts: at most 10 rows a page, starting without token;
    the search over collections selects the collection name alone, the
    search over data objects the collection name and the data-object
    name; each has the two conditions on attribute name and value. *)
Theorem search_input_requests (name val : string) :
  2 <= MAX_NUM_CONDITIONALS ->
  (exists query_input,
     col_search_input (Some name) (Some val) = Ret query_input /\
     maxRows query_input = 10 /\ continueInx query_input = 0 /\
     iv_inx (selectInp query_input) = [COL_COLL_NAME] /\
     conditions query_input
     = [(COL_META_COLL_ATTR_NAME, Some ("= '" +:+ name +:+ "'"));
        (COL_META_COLL_ATTR_VALUE, Some ("= '" +:+ val +:+ "'"))]) /\
  (exists query_input,
     obj_search_input (Some name) (Some val) = Ret query_input /\
     maxRows query_input = 10 /\ continueInx query_input = 0 /\
     iv_inx (selectInp query_input) = [COL_COLL_NAME; COL_DATA_NAME] /\
     conditions query_input
     = [(COL_META_DATA_ATTR_NAME, Some ("= '" +:+ name +:+ "'"));
        (COL_META_DATA_ATTR_VALUE, Some ("= '" +:+ val +:+ "'"))]).
Proof.
  intros Hmax. unfold col_search_input, obj_search_input. split.
  - destruct (fresh_descriptor 10
                {| iv_len := 1; iv_inx := [COL_COLL_NAME]; iv_value := [0] |})
      as [Hin Hnone]; [lia|].
    change (make_query_input 10 1 _) with (Ret
      {| maxRows := 10; continueInx := 0; condInput_len := 0;
         selectInp := {| iv_len := 1; iv_inx := [COL_COLL_NAME]; iv_value := [0] |};
         sqlCondInp := {| vp_len := 0;
                          vp_inx := replicate (Z.to_nat MAX_NUM_CONDITIONALS) 0;
                          vp_value := replicate (Z.to_nat MAX_NUM_CONDITIONALS) None |} |}).
    cbn [bind]. unfold prepare_col_search.
    match goal with
    | |- context [add_query_conds ?q ?n ?l] =>
        destruct (add_query_conds_spec q l) as (q' & Hrun & Hc & _);
          [exact Hin|repeat constructor; simpl; eauto|simpl; lia|];
        destruct (add_query_conds_keeps _ _ _ _ Hrun) as (Hrows & Htoken & _ & Hsel);
        exists q'; split; [exact Hrun|];
        rewrite Hrows, Htoken, Hsel, Hc, Hnone; repeat split; reflexivity
    end.
  - destruct (fresh_descriptor 10
                {| iv_len := 2; iv_inx := [COL_COLL_NAME; COL_DATA_NAME];
                   iv_value := [0; 0] |}) as [Hin Hnone]; [lia|].
    change (make_query_input 10 2 _) with (Ret
      {| maxRows := 10; continueInx := 0; condInput_len := 0;
         selectInp := {| iv_len := 2; iv_inx := [COL_COLL_NAME; COL_DATA_NAME];
                         iv_value := [0; 0] |};
         sqlCondInp := {| vp_len := 0;
                          vp_inx := replicate (Z.to_nat MAX_NUM_CONDITIONALS) 0;
                          vp_value := replicate (Z.to_nat MAX_NUM_CONDITIONALS) None |} |}).
    cbn [bind]. unfold prepare_obj_search.
    match goal with
    | |- context [add_query_conds ?q ?n ?l] =>
        destruct (add_query_conds_spec q l) as (q' & Hrun & Hc & _);
          [exact Hin|repeat constructor; simpl; eauto|simpl; lia|];
        destruct (add_query_conds_keeps _ _ _ _ Hrun) as (Hrows & Htoken & _ & Hsel);
        exists q'; split; [exact Hrun|];
        rewrite Hrows, Htoken, Hsel, Hc, Hnone; repeat split; reflexivity
    end.
Qed.

End Requests.

(** ** The further statements at work *)

Lemma make_query_input_selects_witness :
  @make_query_input sample_header 10 1 [COL_COLL_NAME; COL_DATA_NAME]
  = Ret {| maxRows := 10; continueInx := 0; condInput_len := 0;
           selectInp := {| iv_len := 1; iv_inx := [COL_COLL_NAME]; iv_value := [0] |};
           sqlCondInp := {| vp_len := 0; vp_inx := replicate 20 0;
                            vp_value := replicate 20 None |} |}.
Proof.
  apply (@make_query_input_selects sample_header 10 1 [COL_COLL_NAME; COL_DATA_NAME]).
  simpl. lia.
Defined.

Lemma make_query_input_out_of_bounds_witness :
  @make_query_input sample_header 10 3 [COL_COLL_NAME; COL_DATA_NAME] = Undefined.
Proof.
  apply (@make_query_input_out_of_bounds sample_header 10 3 [COL_COLL_NAME; COL_DATA_NAME]).
  right. simpl. lia.
Defined.

Lemma builders_keep_the_rest_witness :
  maxRows listed_input = maxRows fresh_input /\
  continueInx listed_input = continueInx fresh_input /\
  selectInp listed_input = selectInp fresh_input.
Proof.
  apply (builders_keep_the_rest fresh_input listed_input 0 [] sample_path
           (Some "color") None).
  right. left. reflexivity.
Defined.

Lemma prepare_search_conditions_witness :
  (exists query_input',
     prepare_obj_search fresh_input (Some "color") (Some "red") = Ret query_input' /\
     conditions query_input'
     = [(COL_META_DATA_ATTR_NAME, Some "= 'color'");
        (COL_META_DATA_ATTR_VALUE, Some "= 'red'")]) /\
  (exists query_input',
     prepare_col_search fresh_input (Some "color") (Some "red") = Ret query_input' /\
     conditions query_input'
     = [(COL_META_COLL_ATTR_NAME, Some "= 'color'");
        (COL_META_COLL_ATTR_VALUE, Some "= 'red'")]).
Proof.
  apply (@prepare_search_conditions sample_header fresh_input "color" "red").
  - repeat split; simpl; lia.
  - simpl. lia.
Defined.

Lemma prepare_col_list_conditions_witness :
  exists query_input',
    prepare_col_list fresh_input sample_collection (Some "color") = Ret query_input' /\
    conditions query_input'
    = [(COL_COLL_NAME, Some "= '/zone/home'");
       (COL_META_COLL_ATTR_NAME, Some "= 'color'")].
Proof.
  apply (@prepare_col_list_conditions sample_header fresh_input sample_collection
           (Some "color")).
  - repeat split; simpl; lia.
  - simpl. lia.
Defined.

Lemma search_metadata_null_witness :
  @search_metadata sample_header _ scripted_client 3 [] (Some "color") None = Undefined.
Proof.
  apply (@search_metadata_null sample_header _ scripted_client 3 [] (Some "color") None).
  right. reflexivity.
Defined.

Lemma make_json_objects_records_witness :
  exists records,
    make_json_objects avu_page ["attribute"; "attribute"; "units"]
    = Ret (Some (json_array_of records)) /\
    Z.of_nat (List.length records) = 2 /\
    Forall (fun record =>
              NoDup (keys record) /\
              forall k, k ∈ keys record
                        <-> k ∈ ["attribute"; "attribute"; "units"] /\
                            utf8_check_string k = true)
      records.
Proof.
  apply (make_json_objects_records ["attribute"; "attribute"; "units"] avu_page).
  reflexivity.
Defined.

Lemma make_json_objects_past_labels_witness :
  make_json_objects avu_page ["attribute"; "value"] = Undefined.
Proof.
  apply (make_json_objects_past_labels ["attribute"; "value"] avu_page).
  - simpl. lia.
  - simpl. lia.
  - intros i text Hi Hcell. simpl in Hi.
    assert (i = 0 \/ i = 1) as [-> | ->] by lia;
      vm_compute in Hcell; injection Hcell as <-; reflexivity.
Defined.

Lemma make_json_objects_aborts_witness :
  make_json_objects latin1_page ["collection"] = Aborted.
Proof.
  apply (make_json_objects_aborts ["collection"] latin1_page latin1_name).
  - simpl. lia.
  - simpl. lia.
  - discriminate.
  - reflexivity.
  - reflexivity.
Defined.

Lemma list_metadata_refuses_witness :
  exists entry,
    @list_metadata sample_header _ scripted_client 3 [(0, Some avu_page)] missing_path None
    = Ret (None, [(0, Some avu_page)], [entry]) /\
    level entry = ERROR /\ args entry = [arg_str "/zone/home/gone"].
Proof.
  apply (@list_metadata_refuses sample_header _ scripted_client 3 [(0, Some avu_page)]
           missing_path None).
  left. reflexivity.
Defined.

Lemma list_metadata_lists_witness :
  conditions
    (match @list_input sample_header sample_path None with
     | Ret query_input => query_input
     | _ => empty_input
     end)
  = [(COL_COLL_NAME, Some "= '/zone/home'"); (COL_DATA_NAME, Some "= 'f.txt'")] /\
  @list_metadata sample_header _ scripted_client 3 [(0, Some avu_page)] sample_path None
  = Ret (Some (json_array_of (records_of ["attribute"; "value"; "units"] [avu_page])),
         [], []) /\
  Forall (fun record => keys record = ["attribute"; "value"; "units"])
    (records_of ["attribute"; "value"; "units"] [avu_page]).
Proof.
  eapply (@list_metadata_lists sample_header _ scripted_client 3 [(0, Some avu_page)] []
            sample_path None _ _ [avu_page]).
  - split; [discriminate|left; reflexivity].
  - simpl. lia.
  - reflexivity.
  - repeat (eapply serves_page; [reflexivity|]). apply serves_done.
  - repeat constructor.
  - simpl. lia.
  - simpl. lia.
Defined.

Lemma rods_path_to_json_describes_witness :
  conditions
    (match @list_input sample_header sample_path None with
     | Ret query_input => query_input
     | _ => empty_input
     end)
  = [(COL_COLL_NAME, Some "= '/zone/home'"); (COL_DATA_NAME, Some "= 'f.txt'")] /\
  @rods_path_to_json sample_header _ scripted_client 3 [(0, Some avu_page)] sample_path
  = Ret (Some (json_object_of
                 [("collection", json_string_of "/zone/home");
                  ("data_object", json_string_of "f.txt");
                  ("avus",
                   json_array_of
                     [json_object_of [("attribute", json_string_of "color");
                                      ("value", json_string_of "red");
                                      ("units", json_string_of "")];
                      json_object_of [("attribute", json_string_of "size");
                                      ("value", json_string_of "10");
                                      ("units", json_string_of "kB")]])]),
         [], []).
Proof.
  eapply (@rods_path_to_json_describes sample_header _ scripted_client 3
            [(0, Some avu_page)] [] sample_path _ _ [avu_page]).
  - split; [discriminate|left; reflexivity].
  - simpl. lia.
  - reflexivity.
  - reflexivity.
  - repeat (eapply serves_page; [reflexivity|]). apply serves_done.
  - repeat constructor.
  - simpl. lia.
  - simpl. lia.
Defined.

Lemma rods_path_to_json_fails_whole_witness :
  conditions
    (match @list_input sample_header sample_collection None with
     | Ret query_input => query_input
     | _ => empty_input
     end)
  = [(COL_COLL_NAME, Some "= '/zone/home'")] /\
  @rods_path_to_json sample_header _ scripted_client 3 [(-1, None)] sample_collection
  = Ret (None, [],
         [{| level := ERROR;
             format := "Failed get query result: in chunk %d error %d %s %s";
             args := [arg_int 0; arg_int (-1); arg_str ""; arg_str ""] |};
          {| level := ERROR; format := "Failed to covert '%s' to JSON";
             args := [arg_str "/zone/home"] |}]).
Proof.
  eapply (@rods_path_to_json_fails_whole sample_header _ scripted_client 3
            [(-1, None)] [(-1, None)] [] sample_collection _ _ [] (-1) None).
  - split; [discriminate|right; reflexivity].
  - simpl. lia.
  - reflexivity.
  - reflexivity.
  - apply serves_done.
  - constructor.
  - constructor.
  - reflexivity.
  - discriminate.
  - discriminate.
  - simpl. lia.
Defined.

Lemma rods_path_to_json_refuses_witness :
  exists log,
    @rods_path_to_json sample_header _ scripted_client 3 [(0, Some avu_page)] local_file
    = Ret (None, [(0, Some avu_page)],
           log ++ [{| level := ERROR; format := "Failed to covert '%s' to JSON";
                      args := [arg_str "/tmp/notes.txt"] |}]) /\
    (utf8_check_string "/tmp/notes.txt" = true ->
     exists entry,
       log = [entry] /\ level entry = ERROR /\ args entry = [arg_str "/tmp/notes.txt"]).
Proof.
  apply (@rods_path_to_json_refuses sample_header _ scripted_client 3
           [(0, Some avu_page)] local_file).
  right. split; discriminate.
Defined.

Lemma rods_path_to_json_not_utf8_witness :
  @rods_path_to_json sample_header _ scripted_client 3 [(0, Some avu_page)] latin1_path
  = Ret (None, [(0, Some avu_page)],
         [{| level := ERROR; format := "Failed to covert '%s' to JSON";
             args := [arg_str ("/zone/" +:+ latin1_name)] |}]).
Proof.
  apply (@rods_path_to_json_not_utf8 sample_header _ scripted_client 3
           [(0, Some avu_page)] latin1_path).
  - right. reflexivity.
  - reflexivity.
Defined.

Lemma search_metadata_keeps_going_witness :
  conditions
    (match @col_search_input sample_header (Some "color") (Some "red") with
     | Ret query_input => query_input
     | _ => empty_input
     end)
  = [(COL_META_COLL_ATTR_NAME, Some "= 'color'");
     (COL_META_COLL_ATTR_VALUE, Some "= 'red'")] /\
  conditions
    (match @obj_search_input sample_header (Some "color") (Some "red") with
     | Ret query_input => query_input
     | _ => empty_input
     end)
  = [(COL_META_DATA_ATTR_NAME, Some "= 'color'");
     (COL_META_DATA_ATTR_VALUE, Some "= 'red'")] /\
  @search_metadata sample_header _ scripted_client 3 [(-1, None); (0, Some page3)]
    (Some "color") (Some "red")
  = Ret (Some (json_array_of
                 [json_object_of [("collection", json_string_of "/d");
                                  ("data_object", json_string_of "f")]]),
         [],
         [{| level := ERROR;
             format := "Failed get query result: in chunk %d error %d %s %s";
             args := [arg_int 0; arg_int (-1); arg_str ""; arg_str ""] |}]).
Proof.
  eapply (@search_metadata_keeps_going sample_header _ scripted_client 3
            [(-1, None); (0, Some page3)] [(-1, None); (0, Some page3)]
            [(0, Some page3)] [] "color" "red" _ _ _ _ [] [page3]
            (-1) None).
  - simpl. lia.
  - reflexivity.
  - reflexivity.
  - apply serves_done.
  - constructor.
  - constructor.
  - reflexivity.
  - discriminate.
  - discriminate.
  - repeat (eapply serves_page; [reflexivity|]). apply serves_done.
  - repeat constructor.
  - simpl. lia.
  - simpl. lia.
  - simpl. lia.
Defined.

Lemma search_metadata_concatenates_witness :
  @conditions
    (match @col_search_input sample_header (Some "color") (Some "red") with
     | Ret query_input => query_input
     | _ => empty_input
     end)
  = [(COL_META_COLL_ATTR_NAME, Some "= 'color'");
     (COL_META_COLL_ATTR_VALUE, Some "= 'red'")] /\
  @conditions
    (match @obj_search_input sample_header (Some "color") (Some "red") with
     | Ret query_input => query_input
     | _ => empty_input
     end)
  = [(COL_META_DATA_ATTR_NAME, Some "= 'color'");
     (COL_META_DATA_ATTR_VALUE, Some "= 'red'")] /\
  @search_metadata sample_header _ scripted_client 3
    [(0, Some page1); (0, Some page2); (0, Some page3)] (Some "color") (Some "red")
  = Ret (Some (json_array_of
                 (records_of ["collection"; "data_object"] [page1; page2]
                  ++ records_of ["collection"; "data_object"] [page3])),
         [], []) /\
  Forall (fun record => keys record = ["collection"])
    (records_of ["collection"; "data_object"] [page1; page2]) /\
  Forall (fun record => keys record = ["collection"; "data_object"])
    (records_of ["collection"; "data_object"] [page3]).
Proof.
  eapply (@search_metadata_concatenates sample_header (list response) scripted_client 3
            [(0, Some page1); (0, Some page2); (0, Some page3)] [(0, Some page3)] []
            "color" "red" _ _ _ _ [page1; page2] [page3]).
  - simpl. lia.
  - reflexivity.
  - reflexivity.
  - repeat (eapply serves_page; [reflexivity|]). apply serves_done.
  - repeat (eapply serves_page; [reflexivity|]). apply serves_done.
  - simpl. lia.
  - simpl. lia.
  - repeat constructor.
  - repeat constructor.
  - simpl. lia.
  - simpl. lia.
Defined.


Lemma modify_metadata_reports_witness :
  exists log,
    @modify_metadata sample_header _ refusing_client tt sample_path META_ADD
      (Some "color") (Some "red") (Some "")
    = (-818000, tt, log) /\
    (0 <= -818000 -> log = []) /\
    (-818000 < 0 ->
     exists entry rest,
       log = entry :: rest /\ level entry = ERROR /\ arg_int (-818000) ∈ args entry).
Proof.
  apply (@modify_metadata_reports sample_header _ refusing_client tt tt sample_path
           META_ADD (Some "color") (Some "red") (Some "") (-818000)).
  - left. reflexivity.
  - reflexivity.
Defined.

Lemma data_object_path_exact_witness :
  data_object_path_to_json ("/" +:+ "f.txt")
  = Some (json_object_of [("collection", json_string_of "/");
                          ("data_object", json_string_of "f.txt")]) /\
  forall dir,
    ends_in_name dir ->
    utf8_check_string dir = true ->
    data_object_path_to_json (dir +:+ "/" +:+ "f.txt")
    = Some (json_object_of [("collection", json_string_of dir);
                            ("data_object", json_string_of "f.txt")]).
Proof.
  apply (data_object_path_exact "f.txt").
  - split; [discriminate|].
    intros Hin. simpl in Hin.
    repeat (apply elem_of_cons in Hin as [Hin|Hin]; [discriminate|]).
    inversion Hin.
  - reflexivity.
Defined.

Lemma data_object_path_root_witness :
  data_object_path_to_json "//"
  = Some (json_object_of [("collection", json_string_of "//");
                          ("data_object", json_string_of "/")]).
Proof.
  etransitivity.
  - apply (data_object_path_root "//"); [discriminate|repeat constructor].
  - reflexivity.
Defined.

Lemma list_input_request_witness :
  exists query_input,
    @list_input sample_header sample_collection (Some "color") = Ret query_input /\
    maxRows query_input = 10 /\
    continueInx query_input = 0 /\
    iv_inx (selectInp query_input)
    = [COL_META_COLL_ATTR_NAME; COL_META_COLL_ATTR_VALUE; COL_META_COLL_ATTR_UNITS] /\
    conditions query_input
    = [(COL_COLL_NAME, Some "= '/zone/home'");
       (COL_META_COLL_ATTR_NAME, Some "= 'color'")].
Proof.
  apply (@list_input_request sample_header sample_collection (Some "color")).
  - right. reflexivity.
  - simpl. lia.
Defined.

Lemma search_input_requests_witness :
  (exists query_input,
     @col_search_input sample_header (Some "color") (Some "red") = Ret query_input /\
     maxRows query_input = 10 /\ continueInx query_input = 0 /\
     iv_inx (selectInp query_input) = [COL_COLL_NAME] /\
     conditions query_input
     = [(COL_META_COLL_ATTR_NAME, Some "= 'color'");
        (COL_META_COLL_ATTR_VALUE, Some "= 'red'")]) /\
  (exists query_input,
     @obj_search_input sample_header (Some "color") (Some "red") = Ret query_input /\
     maxRows query_input = 10 /\ continueInx query_input = 0 /\
     iv_inx (selectInp query_input) = [COL_COLL_NAME; COL_DATA_NAME] /\
     conditions query_input
     = [(COL_META_DATA_ATTR_NAME, Some "= 'color'");
        (COL_META_DATA_ATTR_VALUE, Some "= 'red'")]).
Proof.
  apply (@search_input_requests sample_header "color" "red").
  simpl. lia.
Defined.
